(** * Insider backend: the per-room state machine of [main.go]

    A shallow embedding of the room registry, the role assignment, the
    countdown and vote timers, the vote tally and the command handling of
    the websocket handler, followed by the properties proved about them.

    Conventions of the embedding.
    - Go's [int] is the 64-bit signed integer of the usual server targets;
      it is a [Z] and every arithmetic operation of the source that can
      leave the range is written with [wrap].
    - [map[string]T] is a [gmap string T].  Reading a nil map in Go gives
      the zero value, its length is 0 and ranging over it visits nothing,
      so a nil map and an empty one are the same for every read of the
      source; the source guards each write with a [make], so the test
      [m != nil] is not represented.  [m[k]] on a [map[string]bool] is
      [lookupBool].
    - [*Player] values are owned by exactly one entry of [Players] (a
      player is allocated by the handler of its connection and stored under
      one key), so the map holds the records themselves and an assignment
      through the pointer is an update of that entry.
    - A [chan struct{}] is the number it was allocated with; the set of
      closed channels and the timer goroutines that were spawned live in
      [World] next to the room.  Closing a closed channel panics in Go;
      [reachable_chanInv] shows that the stored channel is never a closed
      one, so [close] is modelled as adding to the set.
    - Each stretch of code between [room.mu.Lock()] and the matching
      [Unlock()] is one function on the room; a handler is the composition
      of its stretches in program order, and [step] lets the stretches of
      different handlers and timers interleave.
    - The registry and the room are modelled apart: the call of
      [deleteRoomIfEmpty] that ends the ["kick"] case and the disconnect
      cleanup is not part of the handlers below. *)

From Stdlib Require Import ZArith.
From stdpp Require Import gmap strings list fin_maps relations.

Local Open Scope string_scope.
Local Open Scope Z_scope.

(** ** Machine integers *)

Definition int_min : Z := - 2 ^ 63.
Definition int_max : Z := 2 ^ 63 - 1.

(** Two's complement wrap-around of Go's [int]. *)
Definition wrap (z : Z) : Z := (z + 2 ^ 63) mod 2 ^ 64 - 2 ^ 63.

Definition is_int (z : Z) : Prop := int_min ≤ z ≤ int_max.

(** ** Data model *)

Record Player := mkPlayer {
  ID : string;
  Name : string;
  Score : Z;
  Role : string;
  Conn : option nat
}.

Record VotePair := mkVotePair {
  VoterID : string;
  TargetID : string
}.

Record Room := mkRoom {
  Code : string;
  State : string;
  HostID : string;
  JudgeID : string;
  InsiderID : string;
  Timer : Z;
  SecretWord : string;
  RoundEndByTimeout : bool;
  ChatEnabled : bool;
  BlockedVoters : gmap string bool;
  Voted : gmap string bool;
  LastVotes : list VotePair;
  Players : gmap string Player;
  Votes : gmap string string;
  timerRunning : bool;
  timerCancel : option nat
}.

Definition RoundDurationSeconds : Z := 300.
Definition VoteDurationSeconds : Z := 90.

(** [m[k]] for a [map[string]bool]: [false] when the key is absent. *)
Definition lookupBool (m : gmap string bool) (k : string) : bool :=
  default false (m !! k).

(** *** Field assignments *)

Definition with_Score (v : Z) (p : Player) : Player :=
  mkPlayer (ID p) (Name p) v (Role p) (Conn p).
Definition with_Role (v : string) (p : Player) : Player :=
  mkPlayer (ID p) (Name p) (Score p) v (Conn p).

Definition with_State (v : string) (r : Room) : Room :=
  mkRoom (Code r) v (HostID r) (JudgeID r) (InsiderID r) (Timer r) (SecretWord r)
    (RoundEndByTimeout r) (ChatEnabled r) (BlockedVoters r) (Voted r) (LastVotes r)
    (Players r) (Votes r) (timerRunning r) (timerCancel r).
Definition with_HostID (v : string) (r : Room) : Room :=
  mkRoom (Code r) (State r) v (JudgeID r) (InsiderID r) (Timer r) (SecretWord r)
    (RoundEndByTimeout r) (ChatEnabled r) (BlockedVoters r) (Voted r) (LastVotes r)
    (Players r) (Votes r) (timerRunning r) (timerCancel r).
Definition with_JudgeID (v : string) (r : Room) : Room :=
  mkRoom (Code r) (State r) (HostID r) v (InsiderID r) (Timer r) (SecretWord r)
    (RoundEndByTimeout r) (ChatEnabled r) (BlockedVoters r) (Voted r) (LastVotes r)
    (Players r) (Votes r) (timerRunning r) (timerCancel r).
Definition with_InsiderID (v : string) (r : Room) : Room :=
  mkRoom (Code r) (State r) (HostID r) (JudgeID r) v (Timer r) (SecretWord r)
    (RoundEndByTimeout r) (ChatEnabled r) (BlockedVoters r) (Voted r) (LastVotes r)
    (Players r) (Votes r) (timerRunning r) (timerCancel r).
Definition with_Timer (v : Z) (r : Room) : Room :=
  mkRoom (Code r) (State r) (HostID r) (JudgeID r) (InsiderID r) v (SecretWord r)
    (RoundEndByTimeout r) (ChatEnabled r) (BlockedVoters r) (Voted r) (LastVotes r)
    (Players r) (Votes r) (timerRunning r) (timerCancel r).
Definition with_SecretWord (v : string) (r : Room) : Room :=
  mkRoom (Code r) (State r) (HostID r) (JudgeID r) (InsiderID r) (Timer r) v
    (RoundEndByTimeout r) (ChatEnabled r) (BlockedVoters r) (Voted r) (LastVotes r)
    (Players r) (Votes r) (timerRunning r) (timerCancel r).
Definition with_RoundEndByTimeout (v : bool) (r : Room) : Room :=
  mkRoom (Code r) (State r) (HostID r) (JudgeID r) (InsiderID r) (Timer r) (SecretWord r)
    v (ChatEnabled r) (BlockedVoters r) (Voted r) (LastVotes r)
    (Players r) (Votes r) (timerRunning r) (timerCancel r).
Definition with_ChatEnabled (v : bool) (r : Room) : Room :=
  mkRoom (Code r) (State r) (HostID r) (JudgeID r) (InsiderID r) (Timer r) (SecretWord r)
    (RoundEndByTimeout r) v (BlockedVoters r) (Voted r) (LastVotes r)
    (Players r) (Votes r) (timerRunning r) (timerCancel r).
Definition with_BlockedVoters (v : gmap string bool) (r : Room) : Room :=
  mkRoom (Code r) (State r) (HostID r) (JudgeID r) (InsiderID r) (Timer r) (SecretWord r)
    (RoundEndByTimeout r) (ChatEnabled r) v (Voted r) (LastVotes r)
    (Players r) (Votes r) (timerRunning r) (timerCancel r).
Definition with_Voted (v : gmap string bool) (r : Room) : Room :=
  mkRoom (Code r) (State r) (HostID r) (JudgeID r) (InsiderID r) (Timer r) (SecretWord r)
    (RoundEndByTimeout r) (ChatEnabled r) (BlockedVoters r) v (LastVotes r)
    (Players r) (Votes r) (timerRunning r) (timerCancel r).
Definition with_LastVotes (v : list VotePair) (r : Room) : Room :=
  mkRoom (Code r) (State r) (HostID r) (JudgeID r) (InsiderID r) (Timer r) (SecretWord r)
    (RoundEndByTimeout r) (ChatEnabled r) (BlockedVoters r) (Voted r) v
    (Players r) (Votes r) (timerRunning r) (timerCancel r).
Definition with_Players (v : gmap string Player) (r : Room) : Room :=
  mkRoom (Code r) (State r) (HostID r) (JudgeID r) (InsiderID r) (Timer r) (SecretWord r)
    (RoundEndByTimeout r) (ChatEnabled r) (BlockedVoters r) (Voted r) (LastVotes r)
    v (Votes r) (timerRunning r) (timerCancel r).
Definition with_Votes (v : gmap string string) (r : Room) : Room :=
  mkRoom (Code r) (State r) (HostID r) (JudgeID r) (InsiderID r) (Timer r) (SecretWord r)
    (RoundEndByTimeout r) (ChatEnabled r) (BlockedVoters r) (Voted r) (LastVotes r)
    (Players r) v (timerRunning r) (timerCancel r).
Definition with_timerRunning (v : bool) (r : Room) : Room :=
  mkRoom (Code r) (State r) (HostID r) (JudgeID r) (InsiderID r) (Timer r) (SecretWord r)
    (RoundEndByTimeout r) (ChatEnabled r) (BlockedVoters r) (Voted r) (LastVotes r)
    (Players r) (Votes r) v (timerCancel r).
Definition with_timerCancel (v : option nat) (r : Room) : Room :=
  mkRoom (Code r) (State r) (HostID r) (JudgeID r) (InsiderID r) (Timer r) (SecretWord r)
    (RoundEndByTimeout r) (ChatEnabled r) (BlockedVoters r) (Voted r) (LastVotes r)
    (Players r) (Votes r) (timerRunning r) v.

(** ** The room registry

    [rooms] maps a code to a [*Room]; the rooms themselves live in [heap],
    addressed by the pointer. *)

Record Registry := mkRegistry {
  heap : gmap nat Room;
  rooms : gmap string nat
}.

(** The composite literal of [getOrCreateRoom]; the fields it does not
    name have Go's zero values. *)
Definition newRoom (code : string) : Room :=
  {| Code := code; State := "lobby"; HostID := ""; JudgeID := ""; InsiderID := "";
     Timer := 0; SecretWord := ""; RoundEndByTimeout := false; ChatEnabled := true;
     BlockedVoters := ∅; Voted := ∅; LastVotes := []; Players := ∅; Votes := ∅;
     timerRunning := false; timerCancel := None |}.

(** [getOrCreateRoom]: the pair the source returns ([None] is [nil]) and
    the registry afterwards. *)
Definition getOrCreateRoom (code : string) (create : bool) (reg : Registry)
  : (option nat * bool) * Registry :=
  match rooms reg !! code with
  | Some room =>
      if create then ((None, false), reg) else ((Some room, true), reg)
  | None =>
      if negb create then ((None, false), reg)
      else
        let room := fresh (dom (heap reg)) in
        ((Some room, true),
         {| heap := <[room := newRoom code]> (heap reg);
            rooms := <[code := room]> (rooms reg) |})
  end.

(** [deleteRoomIfEmpty], for the room at address [room]. *)
Definition deleteRoomIfEmpty (room : nat) (reg : Registry) : Registry :=
  match heap reg !! room with
  | Some r =>
      if decide (size (Players r) = 0%nat)
      then {| heap := heap reg; rooms := delete (Code r) (rooms reg) |}
      else reg
  | None => reg
  end.


(** ** Timers, channels and what a handler sends *)

Inductive TimerKind := CountdownTimer | VoteTimer.

(** The room with the channels allocated so far ([chans] is the next fresh
    one), those that were closed, and the timer goroutines that were
    started and have not returned, each with the channel it selects on. *)
Record World := mkWorld {
  room : Room;
  closed : gset nat;
  chans : nat;
  goroutines : list (TimerKind * nat)
}.

Definition with_room (r : Room) (w : World) : World :=
  mkWorld r (closed w) (chans w) (goroutines w).

Inductive Event :=
  | EvError (conn : nat) (text : string)
  | EvRoom (conn : nat) (selfID : string) (snap : Room)
  | EvBroadcast (snap : Room)
  | EvClose (conn : nat)
  | EvChat.

(** The copy of the room that [broadcastRoom] and [sendRoomToPlayer] build:
    no connections, no [Votes], no timer fields. *)
Definition snapshot (r : Room) : Room :=
  {| Code := Code r; State := State r; HostID := HostID r; JudgeID := JudgeID r;
     InsiderID := InsiderID r; Timer := Timer r; SecretWord := SecretWord r;
     RoundEndByTimeout := RoundEndByTimeout r; ChatEnabled := ChatEnabled r;
     BlockedVoters := BlockedVoters r; Voted := Voted r; LastVotes := LastVotes r;
     Players := (λ p, mkPlayer (ID p) (Name p) (Score p) (Role p) None) <$> Players r;
     Votes := ∅; timerRunning := false; timerCancel := None |}.

Definition broadcastRoom (r : Room) : list Event := [EvBroadcast (snapshot r)].

(** [if room.timerCancel != nil { close(room.timerCancel) }] *)
Definition closeTimerCancel (w : World) : World :=
  match timerCancel (room w) with
  | Some c => mkWorld (room w) ({[c]} ∪ closed w) (chans w) (goroutines w)
  | None => w
  end.

(** ** Role assignment *)

(** [rnd] is the source of [rand.Intn]: any number, reduced into
    [0, len(candidates))].  A candidate is kept with the key it is stored
    under, which is what the pointer of the source identifies. *)
Definition candidatesOf (r : Room) : list (string * Player) :=
  filter (λ kp, ID kp.2 ≠ JudgeID r) (map_to_list (Players r)).

(** The first half of [assignRoles]: no insider, everyone [normal], the
    judge marked. *)
Definition resetRoles (r : Room) : Room :=
  let r := with_InsiderID "" r in
  let r := with_Players (with_Role "normal" <$> Players r) r in
  if decide (JudgeID r ≠ "") then
    match Players r !! JudgeID r with
    | Some j => with_Players (<[JudgeID r := with_Role "judge" j]> (Players r)) r
    | None => r
    end
  else r.

Definition assignRoles (rnd : nat) (r : Room) : Room :=
  let r := resetRoles r in
  let candidates := candidatesOf r in
  match candidates !! (rnd mod length candidates)%nat with
  | None => r
  | Some (k, ins) =>
      let r := with_InsiderID (ID ins) r in
      let r := with_Players (<[k := with_Role "insider" ins]> (Players r)) r in
      with_State "assign_roles" r
  end.

(** ** The vote tally *)

(** [count[suspectID]++] over [room.Votes].  A count is at most the number
    of entries of the map, so the increment is not wrapped. *)
Definition countVotes (votes : gmap string string) : gmap string Z :=
  map_fold (λ _ suspectID count,
              <[suspectID := default 0 (count !! suspectID) + 1]> count) ∅ votes.

Definition maxVoteOf (count : gmap string Z) : Z :=
  map_fold (λ _ c maxVote, if decide (c > maxVote) then c else maxVote) (-1) count.

Definition topOf (count : gmap string Z) : list string :=
  (filter (λ ic, ic.2 = maxVoteOf count) (map_to_list count)).*1.

Definition clearVoteState (r : Room) : Room :=
  with_BlockedVoters ∅ (with_Voted ∅ (with_Votes ∅ r)).

Definition rewardOthers (r : Room) : gmap string Player :=
  (λ p, if decide (ID p = InsiderID r ∨ ID p = JudgeID r) then p
        else with_Score (wrap (Score p + 1)) p) <$> Players r.

Definition rewardInsider (r : Room) : gmap string Player :=
  match Players r !! InsiderID r with
  | Some ins => <[InsiderID r := with_Score (wrap (Score ins + 2)) ins]> (Players r)
  | None => Players r
  end.

(** [handleTallyVotes].  Go ranges over a map in an unspecified order;
    here it is the order of [map_to_list], which fixes [LastVotes] up to a
    permutation and nothing else the function computes. *)
Definition handleTallyVotes (r : Room) : Room :=
  if decide (size (Players r) = 0%nat) then r
  else
    let r := with_LastVotes ((λ vt, mkVotePair vt.1 vt.2) <$> map_to_list (Votes r)) r in
    let count := countVotes (Votes r) in
    if decide (size count = 0%nat) then
      clearVoteState (with_State "scoreboard" r)
    else
      let top := topOf count in
      if decide (1 < length top)%nat then
        let r := with_Voted ∅ (with_Votes ∅ (with_State "voting" r)) in
        with_BlockedVoters (foldl (λ b id, <[id := true]> b) ∅ top) r
      else
        match top with
        | [] => r (* top[0] would be out of range; see [topOf_nonempty] *)
        | votedID :: _ =>
            let r :=
              if decide (votedID = InsiderID r)
              then with_Players (rewardOthers r) r
              else with_Players (rewardInsider r) r in
            clearVoteState (with_State "scoreboard" r)
        end.

(** ** Timers *)

Definition decTimer (r : Room) : Room :=
  if decide (Timer r > 0) then with_Timer (wrap (Timer r - 1)) r else r.

(** One iteration of the countdown goroutine's [case <-ticker.C]: the room
    afterwards and whether the goroutine loops again. *)
Definition countdownTick (r : Room) : Room * bool :=
  if negb (timerRunning r) then (r, false)
  else
    let r := decTimer r in
    if decide (Timer r ≤ 0) then
      (with_Votes ∅ (with_RoundEndByTimeout true (with_State "scoreboard"
         (with_timerRunning false (with_Timer 0 r)))), false)
    else (r, true).

(** The first locked stretch of the vote goroutine's tick: the room, and
    whether the countdown ran out (the goroutine then calls
    [handleTallyVotes] and returns). *)
Definition voteTickLocked (r : Room) : Room * option bool :=
  if negb (timerRunning r) then (r, None)
  else
    let r := decTimer r in
    if decide (Timer r ≤ 0) then (with_timerRunning false (with_Timer 0 r), Some true)
    else (r, Some false).

Definition voteTick (r : Room) : Room * bool :=
  match voteTickLocked r with
  | (r, None) => (r, false)
  | (r, Some true) => (handleTallyVotes r, false)
  | (r, Some false) => (r, true)
  end.

Definition startCountdownLocked (duration : Z) (c : nat) (r : Room) : Room :=
  let r := with_Timer duration r in
  let r := with_State "countdown" r in
  let r := with_timerRunning true r in
  let r := with_timerCancel (Some c) r in
  let r := with_RoundEndByTimeout false r in
  let r := with_BlockedVoters ∅ r in
  let r := with_Voted ∅ r in
  with_LastVotes [] r.

Definition startCountdownTimer (duration : Z) (w : World) : World :=
  let w := closeTimerCancel w in
  let c := chans w in
  mkWorld (startCountdownLocked duration c (room w)) (closed w) (S c)
    (goroutines w ++ [(CountdownTimer, c)]).

Definition startVoteLocked (duration : Z) (c : nat) (r : Room) : Room :=
  let r := with_Timer duration r in
  let r := with_State "voting" r in
  let r := with_timerRunning true r in
  with_timerCancel (Some c) r.

Definition startVoteTimer (duration : Z) (w : World) : World :=
  let w := closeTimerCancel w in
  let c := chans w in
  mkWorld (startVoteLocked duration c (room w)) (closed w) (S c)
    (goroutines w ++ [(VoteTimer, c)]).

(** [if room.timerRunning { room.timerRunning = false; if room.timerCancel
    != nil { close(room.timerCancel); room.timerCancel = nil } }] *)
Definition stopRunningTimer (w : World) : World :=
  if timerRunning (room w) then
    let w := with_room (with_timerRunning false (room w)) w in
    match timerCancel (room w) with
    | Some _ => with_room (with_timerCancel None (room w)) (closeTimerCancel w)
    | None => w
    end
  else w.

Definition guessCorrectLocked (w : World) : World :=
  let w := stopRunningTimer w in
  let r := room w in
  let r := with_RoundEndByTimeout false r in
  let r := with_State "voting" r in
  let r := with_Votes ∅ r in
  let r := with_Voted ∅ r in
  let r := with_BlockedVoters ∅ r in
  with_room (with_LastVotes [] r) w.

Definition handleGuessCorrect (w : World) : World * list Event :=
  let w := guessCorrectLocked w in
  let ev := broadcastRoom (room w) in
  (startVoteTimer VoteDurationSeconds w, ev).

Definition handleNextRound (w : World) : World :=
  let r := room w in
  let r := with_Players (with_Role "" <$> Players r) r in
  let r := with_InsiderID "" r in
  let r := with_Timer 0 r in
  let r := with_timerRunning false r in
  let w := with_room r w in
  let w :=
    match timerCancel (room w) with
    | Some _ => with_room (with_timerCancel None (room w)) (closeTimerCancel w)
    | None => w
    end in
  let r := room w in
  let r := with_State "lobby" r in
  let r := with_Votes ∅ r in
  let r := with_RoundEndByTimeout false r in
  let r := with_BlockedVoters ∅ r in
  let r := with_Voted ∅ r in
  with_room (with_LastVotes [] r) w.

(** ** The websocket handler *)

(** A decoded [ClientMessage]; [ChatEnabled] is the [*bool] of the source. *)
Module ClientMessage.
Record t := mk {
  Type' : string;
  TargetID : string;
  Duration : Z;
  SuspectID : string;
  SecretWord : string;
  Text : string;
  ChatEnabled : option bool
}.
End ClientMessage.

(** The stretch of [wsHandler] that registers the new player. *)
Definition joinRoom (c : nat) (playerID playerName : string) (r : Room) : Room :=
  let player := mkPlayer playerID playerName 0 "" (Some c) in
  let r := with_Players (<[playerID := player]> (Players r)) r in
  if decide (HostID r = "") then with_HostID playerID r else r.

Definition joinEvents (c : nat) (playerID : string) (r : Room) : list Event :=
  EvRoom c playerID (snapshot r) :: broadcastRoom r.

(** The deferred stretch of [wsHandler].  The new host is the first key
    the [range] meets, any member: [rnd] chooses it. *)
Definition leaveRoom (rnd : nat) (playerID : string) (r : Room) : Room :=
  let r := with_Players (delete playerID (Players r)) r in
  let r :=
    if decide (HostID r = playerID) then
      let r := with_HostID "" r in
      let ids := (map_to_list (Players r)).*1 in
      match ids !! (rnd mod length ids)%nat with
      | Some id => with_HostID id r
      | None => r
      end
    else r in
  if decide (JudgeID r = playerID) then with_JudgeID "" r else r.

Definition setJudge (targetID : string) (r : Room) : Room :=
  match Players r !! targetID with
  | Some _ => with_JudgeID targetID r
  | None => r
  end.

Definition handleSetChatEnabled (c : nat) (playerID : string) (msg : ClientMessage.t)
    (w : World) : World * list Event :=
  match ClientMessage.ChatEnabled msg with
  | None => (w, [EvError c "chatEnabled is required"])
  | Some b =>
      if decide (HostID (room w) ≠ playerID)
      then (w, [EvError c "เฉพาะ Host เท่านั้นที่ตั้งค่าแชทได้"])
      else
        let w := with_room (with_ChatEnabled b (room w)) w in
        (w, broadcastRoom (room w))
  end.

Definition handleStartRound (c rnd : nat) (msg : ClientMessage.t) (w : World)
    : World * list Event :=
  let duration :=
    if decide (ClientMessage.Duration msg ≤ 0) then RoundDurationSeconds
    else ClientMessage.Duration msg in
  let totalPlayers := Z.of_nat (size (Players (room w))) in
  let hasJudge := bool_decide (JudgeID (room w) ≠ "") in
  let nonJudgeCount := if hasJudge then totalPlayers - 1 else totalPlayers in
  let w := with_room (with_SecretWord (ClientMessage.SecretWord msg) (room w)) w in
  if decide (ClientMessage.SecretWord msg = "")
  then (w, [EvError c "กรรมการต้องกำหนดคำปริศนาก่อนเริ่มเกม"])
  else if decide (hasJudge = false ∨ nonJudgeCount < 3)
  then (w, [EvError c "ต้องมีผู้เล่น (ไม่นับกรรมการ) อย่างน้อย 3 คน"])
  else
    let w := with_room (assignRoles rnd (room w)) w in
    let ev := broadcastRoom (room w) in
    (startCountdownTimer duration w, ev).

Definition handleGuessCorrectMsg (c : nat) (playerID : string) (w : World)
    : World * list Event :=
  let isJudge := bool_decide (JudgeID (room w) = playerID) in
  if negb isJudge
  then (w, [EvError c "เฉพาะกรรมการเท่านั้นที่กดทายถูกได้"])
  else handleGuessCorrect w.

(** [room.Votes[playerID] = msg.SuspectID; room.Voted[playerID] = true] *)
Definition recordVote (playerID suspectID : string) (r : Room) : Room :=
  let r := with_Votes (<[playerID := suspectID]> (Votes r)) r in
  with_Voted (<[playerID := true]> (Voted r)) r.

(** The loop that counts the members who may vote. *)
Definition eligibleCount (r : Room) : nat :=
  size (filter (λ kp : string * Player,
                  kp.1 ≠ JudgeID r ∧ lookupBool (BlockedVoters r) kp.1 = false)
               (Players r)).

(** What follows the recording of a vote: tally at once when every
    eligible member has voted, otherwise only publish. *)
Definition afterVote (w : World) : World * list Event :=
  let eligible := eligibleCount (room w) in
  if decide (eligible ≤ size (Votes (room w)) ∧ 0 < eligible)%nat then
    let w := stopRunningTimer w in
    let w := with_room (handleTallyVotes (room w)) w in
    (w, broadcastRoom (room w))
  else (w, broadcastRoom (room w)).

Definition handleVoteInsider (c : nat) (playerID : string) (msg : ClientMessage.t)
    (w : World) : World * list Event :=
  let suspectID := ClientMessage.SuspectID msg in
  if decide (suspectID = "") then (w, [EvError c "suspectId is required"])
  else if decide (State (room w) ≠ "voting")
  then (w, [EvError c "ยังไม่อยู่ในช่วงโหวต"])
  else if decide (playerID = JudgeID (room w))
  then (w, [EvError c "กรรมการไม่สามารถโหวตได้"])
  else if lookupBool (BlockedVoters (room w)) playerID
  then (w, [EvError c "คุณอยู่ในกลุ่มที่ถูกสงสัย จึงไม่มีสิทธิ์โหวตรอบนี้"])
  else if decide (suspectID = playerID)
  then (w, [EvError c "ไม่สามารถโหวตตัวเองได้"])
  else
    match Players (room w) !! suspectID with
    | None => (w, [EvError c "invalid suspectId"])
    | Some _ => afterVote (with_room (recordVote playerID suspectID (room w)) w)
    end.

(** The writes of the ["kick"] case once the checks have passed. *)
Definition kickLocked (targetID : string) (r : Room) : Room :=
  let r := if decide (JudgeID r = targetID) then with_JudgeID "" r else r in
  with_Players (delete targetID (Players r)) r.

Definition handleKick (c : nat) (playerID : string) (msg : ClientMessage.t)
    (w : World) : World * list Event :=
  let targetID := ClientMessage.TargetID msg in
  let r := room w in
  if decide (HostID r ≠ playerID)
  then (w, [EvError c "เฉพาะ Host เท่านั้นที่เตะผู้เล่นได้"])
  else if decide (targetID = "") then (w, [EvError c "targetId is required"])
  else if decide (targetID = HostID r) then (w, [EvError c "ไม่สามารถเตะตัวเองได้"])
  else
    match Players r !! targetID with
    | None => (w, [EvError c "ผู้เล่นที่ต้องการเตะไม่อยู่ในห้องแล้ว"])
    | Some target =>
        let r := kickLocked targetID r in
        let notice :=
          match Conn target with
          | Some tc => [EvError tc "คุณถูกเชิญออกจากห้องโดย Host"; EvClose tc]
          | None => []
          end in
        (with_room r w, (notice ++ broadcastRoom r)%list)
    end.

(** The [switch msg.Type] of the read loop, for the connection [c] of the
    player [playerID].  The ["chat"] case writes no field of the room; what
    it sends is summarised by [EvChat]. *)
Definition handleMessage (c : nat) (playerID : string) (rnd : nat)
    (msg : ClientMessage.t) (w : World) : World * list Event :=
  let ty := ClientMessage.Type' msg in
  if decide (ty = "set_judge") then
    let w := with_room (setJudge (ClientMessage.TargetID msg) (room w)) w in
    (w, broadcastRoom (room w))
  else if decide (ty = "set_chat_enabled") then handleSetChatEnabled c playerID msg w
  else if decide (ty = "start_round") then handleStartRound c rnd msg w
  else if decide (ty = "guess_correct") then handleGuessCorrectMsg c playerID w
  else if decide (ty = "vote_insider") then handleVoteInsider c playerID msg w
  else if decide (ty = "next_round") then
    let w := handleNextRound w in
    (w, broadcastRoom (room w))
  else if decide (ty = "kick") then handleKick c playerID msg w
  else if decide (ty = "chat") then (w, [EvChat])
  else (w, [EvError c ("unknown message type: " +:+ ty)]).

Definition isError (e : Event) : bool :=
  match e with EvError _ _ => true | _ => false end.

(** The handler sent an error message to the connection [c]. *)
Definition rejected (c : nat) (ev : list Event) : Prop :=
  ∃ text, ev = [EvError c text].

(** The countdown goroutine left alone for [n] ticks of its ticker: the
    room, and whether the goroutine is still looping. *)
Fixpoint countdownTicks (n : nat) (r : Room) : Room * bool :=
  match n with
  | O => (r, true)
  | S n =>
      match countdownTick r with
      | (r, true) => countdownTicks n r
      | (r, false) => (r, false)
      end
  end.

Definition initWorld (code : string) : World := mkWorld (newRoom code) ∅ 0 [].

(** ** The room as a transition system

    Every locked stretch of the source is a step (the stretch of
    [vote_insider] that stores a vote and stops the timer is two).  The
    checks a handler makes on its own variables between two stretches are
    left out, so that the steps cover every interleaving of the handlers
    and the timer goroutines, and more. *)

#[global] Instance TimerKind_eq_dec : EqDecision TimerKind.
Proof. solve_decision. Defined.

(** The goroutine [g] returns. *)
Definition returns (g : TimerKind * nat) (w : World) : World :=
  mkWorld (room w) (closed w) (chans w) (filter (λ g', g' ≠ g) (goroutines w)).

Definition countdownTickWorld (c : nat) (w : World) : World :=
  match countdownTick (room w) with
  | (r, true) => with_room r w
  | (r, false) => returns (CountdownTimer, c) (with_room r w)
  end.

Definition voteTickWorld (c : nat) (w : World) : World :=
  match voteTickLocked (room w) with
  | (r, Some false) => with_room r w
  | (r, _) => returns (VoteTimer, c) (with_room r w)
  end.

Inductive step : World → World → Prop :=
  | step_join c playerID playerName w :
      step w (with_room (joinRoom c playerID playerName (room w)) w)
  | step_leave rnd playerID w :
      step w (with_room (leaveRoom rnd playerID (room w)) w)
  | step_set_judge targetID w :
      step w (with_room (setJudge targetID (room w)) w)
  | step_set_chat b w :
      step w (with_room (with_ChatEnabled b (room w)) w)
  | step_store_word word w :
      step w (with_room (with_SecretWord word (room w)) w)
  | step_assign_roles rnd w :
      step w (with_room (assignRoles rnd (room w)) w)
  | step_start_countdown D w :
      step w (startCountdownTimer D w)
  | step_guess_correct w :
      step w (guessCorrectLocked w)
  | step_start_vote D w :
      step w (startVoteTimer D w)
  | step_record_vote playerID suspectID w :
      step w (with_room (recordVote playerID suspectID (room w)) w)
  | step_stop_timer w :
      step w (stopRunningTimer w)
  | step_tally w :
      step w (with_room (handleTallyVotes (room w)) w)
  | step_next_round w :
      step w (handleNextRound w)
  | step_kick targetID w :
      step w (with_room (kickLocked targetID (room w)) w)
  | step_countdown_tick c w :
      (CountdownTimer, c) ∈ goroutines w → step w (countdownTickWorld c w)
  | step_vote_tick c w :
      (VoteTimer, c) ∈ goroutines w → step w (voteTickWorld c w)
  | step_cancelled g w :
      g ∈ goroutines w → g.2 ∈ closed w → step w (returns g w).

Definition reachable (w : World) : Prop := ∃ code, rtc step (initWorld code) w.

(** What the clients of a room do, one handler at a time. *)
Inductive Action :=
  | Join (c : nat) (playerID playerName : string)
  | Leave (rnd : nat) (playerID : string)
  | Message (c : nat) (playerID : string) (rnd : nat) (msg : ClientMessage.t).

Definition act (w : World) (a : Action) : World :=
  match a with
  | Join c playerID playerName => with_room (joinRoom c playerID playerName (room w)) w
  | Leave rnd playerID => with_room (leaveRoom rnd playerID (room w)) w
  | Message c playerID rnd msg => (handleMessage c playerID rnd msg w).1
  end.

Definition run (actions : list Action) (w : World) : World := foldl act w actions.

(** ** Notions used to state the properties *)

(** The number of votes a target received, read off the vote mapping. *)
Definition votesFor (votes : gmap string string) (target : string) : nat :=
  size (filter (λ vt : string * string, vt.2 = target) votes).


(** [target] received strictly more votes than any other target. *)
Definition uniqueMax (votes : gmap string string) (target : string) : Prop :=
  ∀ other, other ≠ target → (votesFor votes other < votesFor votes target)%nat.

(** [target] received votes, and no target received more. *)
Definition atMax (votes : gmap string string) (target : string) : Prop :=
  (0 < votesFor votes target)%nat ∧
  ∀ other, (votesFor votes other ≤ votesFor votes target)%nat.

(** Two or more targets share the maximum. *)
Definition tiedMax (votes : gmap string string) : Prop :=
  ∃ x y, x ≠ y ∧ atMax votes x ∧ atMax votes y.

(** Every score can grow by two without leaving the range of [int]. *)
Definition scoresFit (r : Room) : Prop :=
  map_Forall (λ _ p, int_min ≤ Score p ∧ Score p + 2 ≤ int_max) (Players r).

(** The player stored under [k] is the same in [r'] as in [r] except that
    its score grew by [d]. *)
Definition gains (r r' : Room) (k : string) (d : Z) : Prop :=
  ∃ p, Players r !! k = Some p ∧ Players r' !! k = Some (with_Score (Score p + d) p).

(** The checks a [vote_insider] has to pass before the vote is stored. *)
Definition validVote (playerID : string) (msg : ClientMessage.t) (r : Room) : Prop :=
  ClientMessage.SuspectID msg ≠ "" ∧ State r = "voting" ∧ playerID ≠ JudgeID r ∧
  lookupBool (BlockedVoters r) playerID = false ∧
  ClientMessage.SuspectID msg ≠ playerID ∧
  is_Some (Players r !! ClientMessage.SuspectID msg).

Definition noError (ev : list Event) : Prop := Forall (λ e, isError e = false) ev.

(** *** Invariants *)

(** A player is stored under its own id. *)
Definition keyedById (r : Room) : Prop :=
  map_Forall (λ k p, ID p = k) (Players r).

(** Whoever has the role [insider] is the player the insider id names. *)
Definition insiderRoleNamed (r : Room) : Prop :=
  map_Forall (λ k p, Role p = "insider" → k = InsiderID r) (Players r).

(** At most one player has the role [insider]. *)
Definition oneInsiderRole (r : Room) : Prop :=
  ∀ k1 k2 p1 p2, Players r !! k1 = Some p1 → Players r !! k2 = Some p2 →
                 Role p1 = "insider" → Role p2 = "insider" → k1 = k2.

(** A judge id that is set names a member. *)
Definition judgePresent (r : Room) : Prop :=
  JudgeID r ≠ "" → is_Some (Players r !! JudgeID r).

Definition roomInv (r : Room) : Prop :=
  keyedById r ∧ insiderRoleNamed r ∧ judgePresent r.

(** [r'] has the ids of [r] and the same players up to name, score and
    connection. *)
Definition sameCast (r r' : Room) : Prop :=
  InsiderID r' = InsiderID r ∧ JudgeID r' = JudgeID r ∧
  ∀ k, (λ p, (ID p, Role p)) <$> Players r' !! k
       = (λ p, (ID p, Role p)) <$> Players r !! k.

(** The stored channel is open, and it and every closed channel were
    allocated: the source never closes a channel twice. *)
Definition chanInv (w : World) : Prop :=
  (∀ c, c ∈ closed w → (c < chans w)%nat) ∧
  (∀ c, timerCancel (room w) = Some c → (c < chans w)%nat ∧ c ∉ closed w).

(** *** Sample rooms, messages and runs *)

Definition samplePlayer (id : string) (score : Z) : Player :=
  mkPlayer id id score "normal" (Some 0%nat).

(** Six members, judge ["j"], insider ["x"], in the vote phase. *)
Definition votingRoom (votes : list (string * string)) : Room :=
  {| Code := "R"; State := "voting"; HostID := "a"; JudgeID := "j"; InsiderID := "x";
     Timer := 60; SecretWord := "apple"; RoundEndByTimeout := false; ChatEnabled := true;
     BlockedVoters := ∅; Voted := list_to_map ((λ vt, (vt.1, true)) <$> votes);
     LastVotes := [];
     Players := list_to_map ((λ id, (id, samplePlayer id 0)) <$> ["a"; "b"; "c"; "x"; "y"; "j"]);
     Votes := list_to_map votes; timerRunning := true; timerCancel := Some 1%nat |}.

(** The same room after every member has disconnected while the vote
    timer is still running. *)
Definition desertedRoom (votes : list (string * string)) : Room :=
  with_JudgeID "" (with_HostID "" (with_Players ∅ (votingRoom votes))).

(** A member whose score is the largest [int]. *)
Definition saturatedRoom (votes : list (string * string)) : Room :=
  with_Players (<["a" := samplePlayer "a" int_max]> (Players (votingRoom votes)))
    (votingRoom votes).

(** A room in the countdown phase of a round whose word is ["apple"]. *)
Definition countdownWorld : World :=
  mkWorld (with_State "countdown" (votingRoom [])) ∅ 2 [(CountdownTimer, 1%nat)].

(** The same members in the lobby, before any round. *)
Definition lobbyWorld : World :=
  mkWorld (with_timerCancel None (with_timerRunning false
             (with_InsiderID "" (with_State "lobby" (votingRoom []))))) ∅ 0 [].

Definition plainMsg (type : string) : ClientMessage.t :=
  ClientMessage.mk type "" 0 "" "" "" None.
Definition setJudgeMsg (targetID : string) : ClientMessage.t :=
  ClientMessage.mk "set_judge" targetID 0 "" "" "" None.
Definition startRoundMsg (secretWord : string) (duration : Z) : ClientMessage.t :=
  ClientMessage.mk "start_round" "" duration "" secretWord "" None.
Definition voteMsg (suspectID : string) : ClientMessage.t :=
  ClientMessage.mk "vote_insider" "" 0 suspectID "" "" None.

(** Four players join, the first is made judge, a round starts, and the
    player who was drawn as insider is made judge. *)
Definition insiderMadeJudge : list Action :=
  [ Join 1 "p1" "Ann"; Join 2 "p2" "Bob"; Join 3 "p3" "Cid"; Join 4 "p4" "Dee";
    Message 1 "p1" 0 (setJudgeMsg "p1");
    Message 1 "p1" 0 (startRoundMsg "apple" 0);
    Message 2 "p2" 0 (setJudgeMsg "p3") ].

(** The same round, but the insider disconnects instead. *)
Definition insiderGone : list Action :=
  [ Join 1 "p1" "Ann"; Join 2 "p2" "Bob"; Join 3 "p3" "Cid"; Join 4 "p4" "Dee";
    Message 1 "p1" 0 (setJudgeMsg "p1");
    Message 1 "p1" 0 (startRoundMsg "apple" 0);
    Leave 0 "p3" ].

(** * Properties *)

(** ** Counting votes *)

Lemma votesFor_empty target : votesFor ∅ target = 0%nat.
Proof. unfold votesFor. by rewrite map_filter_empty, map_size_empty. Qed.

Lemma votesFor_insert votes voter suspect target :
  votes !! voter = None →
  votesFor (<[voter := suspect]> votes) target
  = if decide (suspect = target) then S (votesFor votes target)
    else votesFor votes target.
Proof.
  intros Hfresh. unfold votesFor. case_decide as Heq.
  - rewrite map_filter_insert_True by done.
    rewrite map_size_insert_None; [done|].
    by rewrite map_lookup_filter_None; left.
  - rewrite map_filter_insert_not'; [done|done|]. intros ? ?; congruence.
Qed.

Lemma countVotes_lookup votes target :
  countVotes votes !! target
  = if decide (votesFor votes target = 0%nat) then None
    else Some (Z.of_nat (votesFor votes target)).
Proof.
  unfold countVotes. revert votes target.
  apply (map_fold_weak_ind (λ count m, ∀ target,
    count !! target = if decide (votesFor m target = 0%nat) then None
                      else Some (Z.of_nat (votesFor m target)))).
  - intros target. by rewrite votesFor_empty, lookup_empty.
  - intros voter suspect m count Hfresh IH target.
    rewrite votesFor_insert by done.
    destruct (decide (suspect = target)) as [->|Hne].
    + rewrite lookup_insert_eq, IH.
      rewrite (decide_False (P := S _ = 0%nat)) by lia.
      case_decide as Hz; simpl; f_equal; lia.
    + by rewrite lookup_insert_ne, IH.
Qed.

Lemma countVotes_positive votes target c :
  countVotes votes !! target = Some c → 0 < c.
Proof. rewrite countVotes_lookup. case_decide; [done|]. intros [= <-]. lia. Qed.

Lemma countVotes_empty_iff votes : size (countVotes votes) = 0%nat ↔ votes = ∅.
Proof.
  rewrite map_size_empty_iff. split.
  - intros Hc. apply map_empty. intros voter.
    destruct (votes !! voter) as [suspect|] eqn:Hv; [|done].
    assert (countVotes votes !! suspect = None) as Hnone by (by rewrite Hc).
    rewrite countVotes_lookup in Hnone. case_decide as Hz; [|done].
    unfold votesFor in Hz. apply map_size_empty_iff in Hz.
    assert (filter (λ vt : string * string, vt.2 = suspect) votes !! voter
            = Some suspect) as Hin by (by apply map_lookup_filter_Some).
    by rewrite Hz in Hin.
  - intros ->. done.
Qed.

(** ** The maximum and the targets that reach it *)

Lemma maxVoteOf_spec (count : gmap string Z) :
  (∀ id c, count !! id = Some c → c ≤ maxVoteOf count) ∧
  (maxVoteOf count = -1 ∨ ∃ id, count !! id = Some (maxVoteOf count)).
Proof.
  unfold maxVoteOf. revert count.
  apply (map_fold_weak_ind (λ mx (m : gmap string Z),
    (∀ id c, m !! id = Some c → c ≤ mx) ∧ (mx = -1 ∨ ∃ id, m !! id = Some mx))).
  - split; [|by left]. intros id c. by rewrite lookup_empty.
  - intros i c m mx Hfresh [Hle Hmax]. case_decide as Hgt.
    + split.
      * intros id c'. rewrite lookup_insert. case_decide; [intros [= <-]; lia|].
        intros H'. apply Hle in H'. lia.
      * right. exists i. by rewrite lookup_insert_eq.
    + split.
      * intros id c'. rewrite lookup_insert. case_decide; [intros [= <-]; lia|].
        apply Hle.
      * destruct Hmax as [?|[id Hid]]; [by left|]. right. exists id.
        rewrite lookup_insert_ne; [done|]. intros ->. congruence.
Qed.

Lemma elem_of_topOf count id :
  id ∈ topOf count ↔ count !! id = Some (maxVoteOf count).
Proof.
  unfold topOf. rewrite list_elem_of_fmap. split.
  - intros [[id' c] [-> Hin]]. apply list_elem_of_filter in Hin as [Hc Hin].
    simpl in *. apply elem_of_map_to_list in Hin. by subst.
  - intros Hid. exists (id, maxVoteOf count). split; [done|].
    apply list_elem_of_filter. split; [done|]. by apply elem_of_map_to_list.
Qed.

Lemma NoDup_topOf count : NoDup (topOf count).
Proof.
  unfold topOf. eapply NoDup_fmap_fst.
  - intros id c1 c2 H1 H2.
    apply list_elem_of_filter in H1 as [_ H1], H2 as [_ H2].
    apply elem_of_map_to_list in H1, H2. congruence.
  - apply NoDup_filter, NoDup_map_to_list.
Qed.

(** A target is in [top] exactly when no target has more votes than it
    has, and it has at least one. *)
Lemma topOf_countVotes votes id :
  id ∈ topOf (countVotes votes) ↔
  (0 < votesFor votes id)%nat ∧ ∀ other, (votesFor votes other ≤ votesFor votes id)%nat.
Proof.
  rewrite elem_of_topOf.
  destruct (maxVoteOf_spec (countVotes votes)) as [Hle Hmax]. split.
  - intros Hid. pose proof Hid as Hc. rewrite countVotes_lookup in Hc.
    case_decide as Hz; [done|]. injection Hc as Hc. split; [lia|].
    intros other. destruct (decide (votesFor votes other = 0%nat)) as [->|Hnz]; [lia|].
    specialize (Hle other (Z.of_nat (votesFor votes other))).
    rewrite countVotes_lookup, decide_False in Hle by done. specialize (Hle eq_refl). lia.
  - intros [Hpos Hall].
    assert (countVotes votes !! id = Some (Z.of_nat (votesFor votes id))) as Hid.
    { rewrite countVotes_lookup, decide_False; [done|lia]. }
    rewrite Hid. f_equal. apply Hle in Hid as Hle'.
    destruct Hmax as [Hm|[best Hbest]]; [lia|].
    pose proof Hbest as Hb. rewrite countVotes_lookup in Hb.
    case_decide; [done|]. injection Hb as Hb. specialize (Hall best). lia.
Qed.

Lemma topOf_nonempty votes : votes ≠ ∅ → topOf (countVotes votes) ≠ [].
Proof.
  intros Hne Htop.
  destruct (maxVoteOf_spec (countVotes votes)) as [Hle [Hm|[best Hbest]]].
  - apply Hne, countVotes_empty_iff, map_size_empty_iff, map_empty. intros id.
    destruct (countVotes votes !! id) as [c|] eqn:Hc; [|done].
    apply Hle in Hc as ?. apply countVotes_positive in Hc. lia.
  - apply elem_of_topOf in Hbest. rewrite Htop in Hbest. by apply elem_of_nil in Hbest.
Qed.

(** ** Arithmetic of [int] *)

Lemma wrap_id z : is_int z → wrap z = z.
Proof.
  unfold is_int, int_min, int_max, wrap. intros Hz.
  rewrite Z.mod_small; lia.
Qed.

Lemma with_Score_same p : with_Score (Score p + 0) p = p.
Proof. destruct p. unfold with_Score. simpl. f_equal. lia. Qed.

(** ** A single accused *)

Lemma uniqueMax_atMax votes x : uniqueMax votes x → atMax votes x.
Proof.
  intros Hmax. split.
  - destruct (decide (x = "")) as [->|Hne].
    + specialize (Hmax "a" ltac:(done)). lia.
    + specialize (Hmax "" ltac:(done)). lia.
  - intros other. destruct (decide (other = x)) as [->|Hne]; [done|].
    apply Hmax in Hne. lia.
Qed.

Lemma atMax_votes_nonempty votes x : atMax votes x → votes ≠ ∅.
Proof. intros [Hpos _] ->. rewrite votesFor_empty in Hpos. lia. Qed.

Lemma topOf_uniqueMax votes x :
  uniqueMax votes x → topOf (countVotes votes) = [x].
Proof.
  intros Hmax.
  assert (∀ id, id ∈ topOf (countVotes votes) ↔ id = x) as Hin.
  { intros id. rewrite topOf_countVotes. split.
    - intros [_ Hall]. destruct (decide (id = x)) as [|Hne]; [done|].
      apply Hmax in Hne. specialize (Hall x). lia.
    - intros ->. by apply uniqueMax_atMax. }
  pose proof (NoDup_topOf (countVotes votes)) as Hnd.
  destruct (topOf (countVotes votes)) as [|a [|b l]].
  - exfalso. eapply elem_of_nil. apply Hin. done.
  - f_equal. apply Hin. left.
  - exfalso. assert (a = x) as -> by (apply Hin; left).
    assert (b = x) as -> by (apply Hin; right; left).
    apply NoDup_cons in Hnd as [Hnotin _]. apply Hnotin. left.
Qed.

Lemma topOf_tiedMax votes : tiedMax votes → (1 < length (topOf (countVotes votes)))%nat.
Proof.
  intros (x & y & Hne & Hx & Hy).
  apply topOf_countVotes in Hx, Hy.
  destruct (topOf (countVotes votes)) as [|a [|b l]]; simpl; [| |lia].
  - by apply elem_of_nil in Hx.
  - apply list_elem_of_singleton in Hx, Hy. congruence.
Qed.

Lemma blockAll_lookup (top : list string) (b0 : gmap string bool) id :
  foldl (λ b id, <[id := true]> b) b0 top !! id
  = if decide (id ∈ top) then Some true else b0 !! id.
Proof.
  revert b0. induction top as [|a top IH]; intros b0.
  - destruct (decide (id ∈ [])) as [Hin|_]; [by apply elem_of_nil in Hin|done].
  - cbn [foldl]. rewrite IH.
    destruct (decide (id ∈ top)) as [Hin|Hnin];
      destruct (decide (id ∈ a :: top)) as [Hin'|Hnin']; try done.
    + exfalso. apply Hnin'. by right.
    + apply elem_of_cons in Hin' as [->|?]; [|done]. by rewrite lookup_insert_eq.
    + rewrite lookup_insert_ne; [done|]. intros ->. apply Hnin'. left.
Qed.

(** A vote from a blocked player is answered with an error and nothing
    else happens. *)
Lemma blocked_vote_rejected c playerID msg w :
  lookupBool (BlockedVoters (room w)) playerID = true →
  ∃ text, handleVoteInsider c playerID msg w = (w, [EvError c text]).
Proof.
  intros Hblocked. unfold handleVoteInsider.
  repeat case_decide; rewrite ?Hblocked; eauto.
Qed.

Lemma uniqueMax_iff_topOf votes x :
  uniqueMax votes x ↔ topOf (countVotes votes) = [x].
Proof.
  split; [apply topOf_uniqueMax|]. intros Htop other Hne.
  assert (atMax votes x) as [Hpos Hall].
  { apply topOf_countVotes. rewrite Htop. left. }
  pose proof (Hall other) as Hle.
  destruct (decide (votesFor votes other = votesFor votes x)) as [Heq|]; [|lia].
  exfalso. apply Hne.
  assert (other ∈ topOf (countVotes votes)) as Hin.
  { apply topOf_countVotes. split; [lia|]. intros z. rewrite Heq. apply Hall. }
  rewrite Htop in Hin. by apply list_elem_of_singleton in Hin.
Qed.

Lemma tiedMax_iff_topOf votes :
  tiedMax votes ↔ (1 < length (topOf (countVotes votes)))%nat.
Proof.
  split; [apply topOf_tiedMax|]. intros Hlen.
  pose proof (NoDup_topOf (countVotes votes)) as Hnd.
  assert (∀ id, id ∈ topOf (countVotes votes) → atMax votes id) as Hin.
  { intros id. by rewrite topOf_countVotes. }
  destruct (topOf (countVotes votes)) as [|a [|b l]]; simpl in Hlen; [lia|lia|].
  exists a, b. split; [|split].
  - intros ->. apply NoDup_cons in Hnd as [Hnotin _]. apply Hnotin. left.
  - apply Hin. left.
  - apply Hin. right. left.
Qed.

(** What [handleTallyVotes] computes when one target leads. *)
Lemma handleTallyVotes_single r x :
  size (Players r) ≠ 0%nat → uniqueMax (Votes r) x →
  handleTallyVotes r
  = clearVoteState (with_State "scoreboard"
      (with_Players (if decide (x = InsiderID r) then rewardOthers r else rewardInsider r)
         (with_LastVotes ((λ vt, mkVotePair vt.1 vt.2) <$> map_to_list (Votes r)) r))).
Proof.
  intros Hplayers Hmax. unfold handleTallyVotes.
  rewrite decide_False by done. cbn [Votes with_LastVotes].
  rewrite decide_False.
  2:{ rewrite countVotes_empty_iff.
      by eapply atMax_votes_nonempty, uniqueMax_atMax. }
  rewrite (topOf_uniqueMax _ _ Hmax). cbn [length].
  rewrite decide_False by lia.
  unfold rewardOthers, rewardInsider.
  cbn [InsiderID JudgeID Players with_LastVotes]. by case_decide.
Qed.

(** What [handleTallyVotes] computes on a tie. *)
Lemma handleTallyVotes_tie r :
  size (Players r) ≠ 0%nat → tiedMax (Votes r) →
  handleTallyVotes r
  = with_BlockedVoters
      (foldl (λ b id, <[id := true]> b) ∅ (topOf (countVotes (Votes r))))
      (with_Voted ∅ (with_Votes ∅ (with_State "voting"
         (with_LastVotes ((λ vt, mkVotePair vt.1 vt.2) <$> map_to_list (Votes r)) r)))).
Proof.
  intros Hplayers Htie. unfold handleTallyVotes.
  rewrite decide_False by done. cbn [Votes with_LastVotes].
  rewrite decide_False.
  2:{ rewrite countVotes_empty_iff. destruct Htie as (x & _ & _ & Hx & _).
      by eapply atMax_votes_nonempty. }
  by rewrite decide_True by by apply topOf_tiedMax.
Qed.

(** C1 (amended).  In a room that has at least one member and whose scores
    can grow by two within [int], when one target received strictly more
    votes than every other, the tally accuses that target; if it is the
    insider id, every member whose id is neither the insider's nor the
    judge's gains exactly one point and those two keep their scores;
    otherwise the member stored under the insider id, if there is one,
    gains exactly two points and every other member is unchanged.  Either
    way the room is in [scoreboard] and the vote mapping, the voted markers
    and the blocked voters are empty. *)
Theorem tally_single_accused (r : Room) (x : string) :
  size (Players r) ≠ 0%nat → uniqueMax (Votes r) x → scoresFit r →
  let r' := handleTallyVotes r in
  topOf (countVotes (Votes r)) = [x] ∧
  (x = InsiderID r → ∀ k p, Players r !! k = Some p →
     gains r r' k (if decide (ID p = InsiderID r ∨ ID p = JudgeID r) then 0 else 1)) ∧
  (x ≠ InsiderID r → ∀ k, is_Some (Players r !! k) →
     gains r r' k (if decide (k = InsiderID r) then 2 else 0)) ∧
  dom (Players r') = dom (Players r) ∧
  State r' = "scoreboard" ∧ Votes r' = ∅ ∧ Voted r' = ∅ ∧ BlockedVoters r' = ∅.
Proof.
  intros Hplayers Hmax Hfit r'. subst r'.
  rewrite (handleTallyVotes_single r x Hplayers Hmax).
  split; [by apply topOf_uniqueMax|].
  split; [|split; [|split]].
  - intros Hins k p Hk. exists p. split; [done|].
    cbn. rewrite decide_True by done. unfold rewardOthers.
    rewrite lookup_fmap, Hk. cbn. f_equal.
    destruct (Hfit k p Hk) as [Hlo Hhi].
    case_decide; [by rewrite with_Score_same|].
    rewrite wrap_id; [done|]. unfold is_int. lia.
  - intros Hwrong k [p Hk]. exists p. split; [done|].
    cbn. rewrite decide_False by done. unfold rewardInsider.
    destruct (decide (k = InsiderID r)) as [->|Hne].
    + rewrite Hk, lookup_insert_eq. f_equal.
      destruct (Hfit _ p Hk) as [Hlo Hhi].
      rewrite wrap_id; [done|]. unfold is_int. lia.
    + rewrite with_Score_same.
      destruct (Players r !! InsiderID r); [by rewrite lookup_insert_ne|done].
  - cbn. case_decide; unfold rewardOthers, rewardInsider.
    + by rewrite dom_fmap_L.
    + destruct (Players r !! InsiderID r) eqn:Hi; [|done].
      rewrite dom_insert_L. apply elem_of_dom_2 in Hi.
      by apply subseteq_union_1_L, singleton_subseteq_l.
  - done.
Qed.

Lemma tally_single_accused_witness :
  let r := votingRoom [("a", "x"); ("b", "x"); ("c", "y")] in
  topOf (countVotes (Votes r)) = ["x"] ∧
  gains r (handleTallyVotes r) "a" 1 ∧ gains r (handleTallyVotes r) "x" 0 ∧
  State (handleTallyVotes r) = "scoreboard".
Proof.
  intros r.
  assert (size (Players r) ≠ 0%nat) as H1 by (vm_compute; lia).
  assert (uniqueMax (Votes r) "x") as H2
    by (apply uniqueMax_iff_topOf; vm_compute; reflexivity).
  assert (scoresFit r) as H3
    by (apply (bool_decide_unpack _); vm_compute; reflexivity).
  destruct (tally_single_accused r "x" H1 H2 H3) as (Htop & Hyes & _ & _ & Hstate & _).
  split; [exact Htop|]. split; [|split; [|exact Hstate]].
  - exact (Hyes eq_refl "a" (samplePlayer "a" 0) eq_refl).
  - exact (Hyes eq_refl "x" (samplePlayer "x" 0) eq_refl).
Defined.

Lemma tally_single_accused_counterexample :
  (let r := desertedRoom [("a", "x")] in
   uniqueMax (Votes r) "x" ∧
   State (handleTallyVotes r) = "voting" ∧
   Votes (handleTallyVotes r) !! "a" = Some "x") ∧
  (let r := saturatedRoom [("a", "x"); ("b", "x"); ("c", "y")] in
   uniqueMax (Votes r) "x" ∧ InsiderID r = "x" ∧
   Score <$> Players r !! "a" = Some int_max ∧
   Score <$> Players (handleTallyVotes r) !! "a" = Some int_min).
Proof.
  split; intros r.
  - split; [apply uniqueMax_iff_topOf|]; vm_compute; auto.
  - split; [apply uniqueMax_iff_topOf|]; vm_compute; auto.
Qed.

(** ** A tie *)

(** C2 (amended).  In a room that has at least one member, when two or
    more targets share the maximum, the tally leaves the room in [voting],
    empties the vote mapping and the voted markers, makes the blocked
    voters exactly the tied targets, changes no player and no timer field
    (it starts no timer: it is a function of the room alone); afterwards a
    [vote_insider] from a blocked player is answered with an error and
    changes nothing. *)
Theorem tally_tie (r : Room) :
  size (Players r) ≠ 0%nat → tiedMax (Votes r) →
  let r' := handleTallyVotes r in
  State r' = "voting" ∧ Votes r' = ∅ ∧ Voted r' = ∅ ∧
  (∀ id, id ∈ dom (BlockedVoters r') ↔ atMax (Votes r) id) ∧
  (∀ id, id ∈ dom (BlockedVoters r') → BlockedVoters r' !! id = Some true) ∧
  Players r' = Players r ∧
  Timer r' = Timer r ∧ timerRunning r' = timerRunning r ∧
  timerCancel r' = timerCancel r ∧
  (∀ c playerID msg w, room w = r' → playerID ∈ dom (BlockedVoters r') →
     ∃ text, handleVoteInsider c playerID msg w = (w, [EvError c text])).
Proof.
  intros Hplayers Htie r'. subst r'.
  rewrite (handleTallyVotes_tie r Hplayers Htie).
  cbn [State Votes Voted BlockedVoters Players Timer timerRunning timerCancel
       with_BlockedVoters with_Voted with_Votes with_State with_LastVotes].
  assert (∀ id, id ∈ dom (foldl (λ b id, <[id := true]> b) (∅ : gmap string bool)
                            (topOf (countVotes (Votes r))))
                → foldl (λ b id, <[id := true]> b) (∅ : gmap string bool)
                    (topOf (countVotes (Votes r))) !! id = Some true) as Htrue.
  { intros id [b Hb]%elem_of_dom. rewrite blockAll_lookup in Hb |- *.
    case_decide; [done|]. by rewrite lookup_empty in Hb. }
  split_and!; try done.
  - intros id. split.
    + intros [b Hb]%elem_of_dom. rewrite blockAll_lookup in Hb.
      case_decide as Hin; [by apply topOf_countVotes|]. by rewrite lookup_empty in Hb.
    + intros Hid. apply elem_of_dom. rewrite blockAll_lookup.
      rewrite decide_True; [done|]. by apply topOf_countVotes.
  - intros c playerID msg w Hw Hblocked. apply blocked_vote_rejected.
    rewrite Hw. unfold lookupBool. cbn [BlockedVoters with_BlockedVoters].
    by rewrite (Htrue _ Hblocked).
Qed.

Lemma tally_tie_witness :
  let r := votingRoom [("a", "x"); ("b", "y")] in
  State (handleTallyVotes r) = "voting" ∧
  ("x" ∈ dom (BlockedVoters (handleTallyVotes r)) ↔ atMax (Votes r) "x").
Proof.
  intros r.
  assert (size (Players r) ≠ 0%nat) as H1 by (vm_compute; lia).
  assert (tiedMax (Votes r)) as H2
    by (apply tiedMax_iff_topOf; vm_compute; lia).
  destruct (tally_tie r H1 H2) as (Hstate & _ & _ & Hblocked & _).
  split; [exact Hstate|exact (Hblocked "x")].
Defined.

Lemma tally_tie_counterexample :
  let r := desertedRoom [("a", "x"); ("b", "y")] in
  tiedMax (Votes r) ∧
  Votes (handleTallyVotes r) !! "a" = Some "x" ∧
  Voted (handleTallyVotes r) !! "a" = Some true ∧
  BlockedVoters (handleTallyVotes r) = ∅.
Proof.
  intros r. split; [apply tiedMax_iff_topOf; vm_compute; lia|].
  vm_compute. auto.
Qed.

(** ** The countdown *)

Lemma decTimer_pos r :
  0 < Timer r ≤ int_max → decTimer r = with_Timer (Timer r - 1) r.
Proof.
  intros Ht. unfold decTimer. rewrite decide_True by lia.
  by rewrite wrap_id by (unfold is_int, int_min, int_max in *; lia).
Qed.

Lemma countdownTick_step r :
  timerRunning r = true → 1 < Timer r ≤ int_max →
  countdownTick r = (with_Timer (Timer r - 1) r, true).
Proof.
  intros Hrun Ht. unfold countdownTick. rewrite Hrun. cbn [negb].
  rewrite decTimer_pos by lia.
  cbn [Timer with_Timer]. by rewrite decide_False by lia.
Qed.

Lemma countdownTick_last r :
  timerRunning r = true → Timer r = 1 →
  countdownTick r
  = (with_Votes ∅ (with_RoundEndByTimeout true (with_State "scoreboard"
       (with_timerRunning false (with_Timer 0 r)))), false).
Proof.
  intros Hrun Ht. unfold countdownTick. rewrite Hrun. cbn [negb].
  rewrite decTimer_pos by (rewrite Ht; unfold int_max; lia).
  cbn [Timer with_Timer]. by rewrite decide_True by lia.
Qed.

Lemma with_Timer_same r t : t = Timer r → with_Timer t r = r.
Proof. intros ->. by destruct r. Qed.

Lemma countdownTicks_early r (k : nat) :
  timerRunning r = true → Z.of_nat k < Timer r ≤ int_max →
  countdownTicks k r = (with_Timer (Timer r - Z.of_nat k) r, true).
Proof.
  revert r. induction k as [|k IH]; intros r Hrun Ht.
  - cbn [countdownTicks]. rewrite with_Timer_same; [done|lia].
  - cbn [countdownTicks]. rewrite countdownTick_step by (done || lia).
    rewrite IH by (cbn; done || lia). cbn [Timer with_Timer].
    replace (Timer r - 1 - Z.of_nat k) with (Timer r - Z.of_nat (S k)) by lia.
    done.
Qed.

Lemma closeTimerCancel_room w : room (closeTimerCancel w) = room w.
Proof. unfold closeTimerCancel. by destruct (timerCancel (room w)). Qed.

Lemma closeTimerCancel_chans w : chans (closeTimerCancel w) = chans w.
Proof. unfold closeTimerCancel. by destruct (timerCancel (room w)). Qed.

Lemma startCountdownTimer_room D w :
  room (startCountdownTimer D w) = startCountdownLocked D (chans w) (room w).
Proof.
  unfold startCountdownTimer. cbn.
  by rewrite closeTimerCancel_room, closeTimerCancel_chans.
Qed.

(** C7.  A countdown timer started with a duration [D > 0] and left alone:
    after [k < D] ticks the room is the one the start left except that the
    countdown reads [D - k] (so every such tick took exactly one second
    off and the value stayed positive) and the goroutine keeps looping;
    the [D]-th tick sets the countdown to 0, moves the room to
    [scoreboard] with the timeout flag set and the vote mapping empty,
    leaves every player as it was and ends the goroutine. *)
Theorem countdown_runs_out (w : World) (D : Z) :
  0 < D ≤ int_max →
  let w0 := startCountdownTimer D w in
  let r0 := room w0 in
  (CountdownTimer, chans w) ∈ goroutines w0 ∧
  timerCancel r0 = Some (chans w) ∧
  Timer r0 = D ∧ State r0 = "countdown" ∧ Players r0 = Players (room w) ∧
  (∀ k : nat, Z.of_nat k < D →
     countdownTicks k r0 = (with_Timer (D - Z.of_nat k) r0, true)) ∧
  (∀ k : nat, Z.of_nat k < D →
     0 < Timer (countdownTicks k r0).1 ∧
     Timer (countdownTicks (S k) r0).1 = Timer (countdownTicks k r0).1 - 1) ∧
  ∃ r, countdownTicks (Z.to_nat D) r0 = (r, false) ∧
       Timer r = 0 ∧ State r = "scoreboard" ∧ RoundEndByTimeout r = true ∧
       Votes r = ∅ ∧ Players r = Players (room w) ∧ timerRunning r = false.
Proof.
  intros HD w0 r0.
  assert (r0 = startCountdownLocked D (chans w) (room w)) as Hr0
    by apply startCountdownTimer_room.
  assert (timerRunning r0 = true) as Hrun by by rewrite Hr0.
  assert (Timer r0 = D) as HT by by rewrite Hr0.
  assert (∀ k : nat, Z.of_nat k < D →
            countdownTicks k r0 = (with_Timer (D - Z.of_nat k) r0, true)) as Hearly.
  { intros k Hk. rewrite countdownTicks_early by (done || lia). by rewrite HT. }
  assert (∃ r, countdownTicks (Z.to_nat D) r0 = (r, false) ∧
       Timer r = 0 ∧ State r = "scoreboard" ∧ RoundEndByTimeout r = true ∧
       Votes r = ∅ ∧ Players r = Players (room w) ∧ timerRunning r = false) as Hlast.
  { replace (Z.to_nat D) with (Z.to_nat (D - 1) + 1)%nat by lia.
    assert (∀ n m r, countdownTicks (n + m) r
              = match countdownTicks n r with
                | (r', true) => countdownTicks m r'
                | (r', false) => (r', false)
                end) as Hadd.
    { induction n as [|n IHn]; intros m r; cbn [countdownTicks Nat.add]; [done|].
      destruct (countdownTick r) as [r' []]; [apply IHn|done]. }
    rewrite Hadd, Hearly by lia. cbn [countdownTicks].
    rewrite countdownTick_last by (cbn; done || lia).
    eexists. split; [reflexivity|]. by rewrite Hr0. }
  split_and!; try done; try (by rewrite Hr0).
  - unfold w0, startCountdownTimer. cbn [goroutines].
    rewrite closeTimerCancel_chans. apply elem_of_app. right. left.
  - intros k Hk. destruct (decide (Z.of_nat (S k) < D)) as [Hlt|Hge].
    + rewrite !Hearly by lia. cbn. lia.
    + rewrite Hearly by lia. cbn [fst Timer with_Timer].
      assert (S k = Z.to_nat D) as -> by lia.
      destruct Hlast as (r & -> & Hr & _). cbn [fst]. lia.
Qed.

Lemma countdown_runs_out_witness :
  let r0 := room (startCountdownTimer 3 (initWorld "R")) in
  Timer (countdownTicks 2 r0).1 = 1 ∧
  ∃ r, countdownTicks 3 r0 = (r, false) ∧ Timer r = 0 ∧ State r = "scoreboard".
Proof.
  intros r0. subst r0.
  assert (0 < 3 ≤ int_max) as H by (unfold int_max; lia).
  destruct (countdown_runs_out (initWorld "R") 3 H)
    as (_ & _ & _ & _ & _ & Hearly & _ & r & Hlast & Htimer & Hstate & _).
  split.
  - rewrite (Hearly 2%nat) by lia. reflexivity.
  - exists r. split; [exact Hlast|]. split; [exact Htimer|exact Hstate].
Defined.

(** ** The registry *)

(** C8.  With [create] set, [getOrCreateRoom] answers [(nil, false)] when
    the code is taken and otherwise allocates a room, registers it under
    the code and returns it: state [lobby], chat enabled, no players and
    empty vote collections.  Without [create] it returns the registered
    room, or [(nil, false)] when there is none.  Nothing else in the
    registry changes. *)
Theorem getOrCreateRoom_spec (code : string) (reg : Registry) :
  (∀ room, rooms reg !! code = Some room →
     getOrCreateRoom code true reg = ((None, false), reg) ∧
     getOrCreateRoom code false reg = ((Some room, true), reg)) ∧
  (rooms reg !! code = None →
     getOrCreateRoom code false reg = ((None, false), reg) ∧
     ∃ room reg' r,
       getOrCreateRoom code true reg = ((Some room, true), reg') ∧
       heap reg !! room = None ∧
       rooms reg' !! code = Some room ∧ heap reg' !! room = Some r ∧
       Code r = code ∧ State r = "lobby" ∧ ChatEnabled r = true ∧
       Players r = ∅ ∧ Votes r = ∅ ∧ BlockedVoters r = ∅ ∧ Voted r = ∅ ∧
       LastVotes r = [] ∧
       (∀ code', code' ≠ code → rooms reg' !! code' = rooms reg !! code') ∧
       (∀ room', room' ≠ room → heap reg' !! room' = heap reg !! room')).
Proof.
  unfold getOrCreateRoom. split.
  - intros room ->. done.
  - intros ->. split; [done|]. cbn [negb].
    eexists _, _, (newRoom code). split; [reflexivity|]. cbn [heap rooms].
    split_and!; try done.
    + apply not_elem_of_dom, is_fresh.
    + apply lookup_insert_eq.
    + apply lookup_insert_eq.
    + intros code' Hne. by rewrite lookup_insert_ne.
    + intros room' Hne. by rewrite lookup_insert_ne.
Qed.

Lemma getOrCreateRoom_spec_witness :
  let reg := (getOrCreateRoom "R" true (mkRegistry ∅ ∅)).2 in
  getOrCreateRoom "R" true reg = ((None, false), reg) ∧
  getOrCreateRoom "R" false reg = ((Some 0%nat, true), reg) ∧
  getOrCreateRoom "Q" false reg = ((None, false), reg).
Proof.
  intros reg.
  destruct (getOrCreateRoom_spec "R" reg) as [Htaken _].
  destruct (getOrCreateRoom_spec "Q" reg) as [_ Hfree].
  destruct (Htaken 0%nat eq_refl) as [H1 H2].
  destruct (Hfree eq_refl) as [H3 _].
  split; [exact H1|]. split; [exact H2|exact H3].
Defined.

(** ** The next round *)

Lemma timer_stopped r :
  timerRunning r = false →
  countdownTick r = (r, false) ∧ voteTick r = (r, false).
Proof.
  intros Hrun. unfold countdownTick, voteTick, voteTickLocked. by rewrite Hrun.
Qed.

Lemma handleNextRound_room w :
  room (handleNextRound w)
  = {| Code := Code (room w); State := "lobby"; HostID := HostID (room w);
       JudgeID := JudgeID (room w); InsiderID := ""; Timer := 0;
       SecretWord := SecretWord (room w); RoundEndByTimeout := false;
       ChatEnabled := ChatEnabled (room w); BlockedVoters := ∅; Voted := ∅;
       LastVotes := []; Players := with_Role "" <$> Players (room w); Votes := ∅;
       timerRunning := false; timerCancel := None |}.
Proof. destruct w as [[] cl n g]. by destruct timerCancel0. Qed.

Lemma handleNextRound_world w :
  closed (handleNextRound w)
  = match timerCancel (room w) with
    | Some c => {[c]} ∪ closed w
    | None => closed w
    end ∧
  chans (handleNextRound w) = chans w ∧
  goroutines (handleNextRound w) = goroutines w.
Proof. destruct w as [[] cl n g]. by destruct timerCancel0. Qed.

(** C9.  Whatever the state, [next_round] moves the room to [lobby], gives
    every player the empty role, empties the insider id, sets the countdown
    to 0, stops the timer (the flag is off, the stored channel is closed and
    forgotten, so a tick of an old goroutine changes nothing), and empties
    the vote mapping, the voted markers, the blocked voters and the last
    votes.  The players keep their keys and everything but their role, and
    the host id and the judge id stay. *)
Theorem next_round_resets (w : World) :
  let w' := handleNextRound w in
  let r' := room w' in
  State r' = "lobby" ∧
  Players r' = with_Role "" <$> Players (room w) ∧
  (∀ k p', Players r' !! k = Some p' → Role p' = "") ∧
  (∀ k p, Players (room w) !! k = Some p →
     ∃ p', Players r' !! k = Some p' ∧ Score p' = Score p ∧ ID p' = ID p ∧
           Name p' = Name p ∧ Conn p' = Conn p) ∧
  dom (Players r') = dom (Players (room w)) ∧
  InsiderID r' = "" ∧ Timer r' = 0 ∧
  timerRunning r' = false ∧ timerCancel r' = None ∧
  (∀ c, timerCancel (room w) = Some c → c ∈ closed w') ∧
  countdownTick r' = (r', false) ∧ voteTick r' = (r', false) ∧
  goroutines w' = goroutines w ∧
  Votes r' = ∅ ∧ Voted r' = ∅ ∧ BlockedVoters r' = ∅ ∧ LastVotes r' = [] ∧
  HostID r' = HostID (room w) ∧ JudgeID r' = JudgeID (room w).
Proof.
  intros w' r'. subst r' w'.
  destruct (handleNextRound_world w) as (Hclosed & _ & Hgo).
  rewrite handleNextRound_room.
  cbn [State Players InsiderID Timer timerRunning timerCancel Votes Voted
       BlockedVoters LastVotes HostID JudgeID].
  split_and!; try done.
  - intros k p'. rewrite lookup_fmap.
    destruct (Players (room w) !! k); [|done]. by intros [= <-].
  - intros k p Hk. exists (with_Role "" p). by rewrite lookup_fmap, Hk.
  - by rewrite dom_fmap_L.
  - intros c Hc. rewrite Hclosed, Hc. apply elem_of_union_l. by apply elem_of_singleton.
Qed.

Lemma next_round_resets_witness :
  let w := mkWorld (votingRoom [("a", "x")]) ∅ 2 [(VoteTimer, 1%nat)] in
  State (room (handleNextRound w)) = "lobby" ∧
  (1%nat ∈ closed (handleNextRound w)) ∧
  Role <$> Players (room (handleNextRound w)) !! "a" = Some "".
Proof.
  intros w.
  destruct (next_round_resets w) as (Hstate & Hplayers & _ & _ & _ & _ & _ & _ & _ & Hclosed & _).
  split; [exact Hstate|]. split; [exact (Hclosed 1%nat eq_refl)|].
  rewrite Hplayers. reflexivity.
Defined.

(** ** [guess_correct] *)

Lemma handleGuessCorrect_room w :
  room (handleGuessCorrect w).1
  = {| Code := Code (room w); State := "voting"; HostID := HostID (room w);
       JudgeID := JudgeID (room w); InsiderID := InsiderID (room w);
       Timer := VoteDurationSeconds; SecretWord := SecretWord (room w);
       RoundEndByTimeout := false; ChatEnabled := ChatEnabled (room w);
       BlockedVoters := ∅; Voted := ∅; LastVotes := []; Players := Players (room w);
       Votes := ∅; timerRunning := true; timerCancel := Some (chans w) |}.
Proof. destruct w as [[] cl n g]. by destruct timerRunning0, timerCancel0. Qed.

Lemma handleGuessCorrect_world w :
  closed (handleGuessCorrect w).1
  = match timerCancel (room w) with
    | Some c => {[c]} ∪ closed w
    | None => closed w
    end ∧
  chans (handleGuessCorrect w).1 = S (chans w) ∧
  goroutines (handleGuessCorrect w).1 = (goroutines w ++ [(VoteTimer, chans w)])%list ∧
  noError (handleGuessCorrect w).2.
Proof.
  destruct w as [[] cl n g].
  destruct timerRunning0, timerCancel0; cbn; split_and!; try done;
    by repeat constructor.
Qed.

(** C5 (amended).  A [guess_correct] takes effect exactly when its sender
    is the judge, whatever the state of the room: the room moves to
    [voting], the channel of the stored timer is closed, the vote state is
    reset and a vote timer of 90 seconds is started, the players being
    untouched.  From any other sender it is answered with an error and
    changes nothing. *)
Theorem guess_correct_gate (c : nat) (playerID : string) (rnd : nat)
    (msg : ClientMessage.t) (w : World) :
  ClientMessage.Type' msg = "guess_correct" →
  let res := handleMessage c playerID rnd msg w in
  (JudgeID (room w) = playerID →
     State (room res.1) = "voting" ∧ noError res.2 ∧
     Votes (room res.1) = ∅ ∧ Voted (room res.1) = ∅ ∧
     BlockedVoters (room res.1) = ∅ ∧ LastVotes (room res.1) = [] ∧
     RoundEndByTimeout (room res.1) = false ∧
     Players (room res.1) = Players (room w) ∧
     (∀ c0, timerCancel (room w) = Some c0 → c0 ∈ closed res.1) ∧
     Timer (room res.1) = VoteDurationSeconds ∧ timerRunning (room res.1) = true ∧
     timerCancel (room res.1) = Some (chans w) ∧
     goroutines res.1 = (goroutines w ++ [(VoteTimer, chans w)])%list) ∧
  (JudgeID (room w) ≠ playerID → res.1 = w ∧ rejected c res.2).
Proof.
  intros Hty res. subst res. unfold handleMessage. rewrite Hty.
  repeat (rewrite decide_False by done). rewrite decide_True by done.
  unfold handleGuessCorrectMsg. split.
  - intros Hjudge. rewrite bool_decide_eq_true_2 by done. cbn [negb].
    destruct (handleGuessCorrect_world w) as (Hclosed & _ & Hgo & Hev).
    rewrite handleGuessCorrect_room.
    cbn [State Votes Voted BlockedVoters LastVotes RoundEndByTimeout Players Timer
         timerRunning timerCancel].
    split_and!; try done.
    intros c0 Hc0. rewrite Hclosed, Hc0. apply elem_of_union_l. by apply elem_of_singleton.
  - intros Hother. rewrite bool_decide_eq_false_2 by done. cbn [negb fst snd].
    split; [done|]. by eexists.
Qed.

Lemma guess_correct_gate_witness :
  let res := handleMessage 0 "j" 0 (plainMsg "guess_correct") countdownWorld in
  let res' := handleMessage 0 "a" 0 (plainMsg "guess_correct") countdownWorld in
  State (room res.1) = "voting" ∧ (1%nat ∈ closed res.1) ∧
  res'.1 = countdownWorld ∧ rejected 0 res'.2.
Proof.
  intros res res'.
  destruct (guess_correct_gate 0 "j" 0 (plainMsg "guess_correct") countdownWorld eq_refl)
    as [Hjudge _].
  destruct (guess_correct_gate 0 "a" 0 (plainMsg "guess_correct") countdownWorld eq_refl)
    as [_ Hother].
  destruct (Hjudge eq_refl) as (Hstate & _ & _ & _ & _ & _ & _ & _ & Hclosed & _).
  destruct (Hother ltac:(vm_compute; discriminate)) as [Hsame Hrej].
  split; [exact Hstate|]. split; [exact (Hclosed 1%nat eq_refl)|].
  split; [exact Hsame|exact Hrej].
Defined.

Lemma guess_correct_gate_counterexample :
  let res := handleMessage 0 "j" 0 (plainMsg "guess_correct") lobbyWorld in
  State (room lobbyWorld) = "lobby" ∧ JudgeID (room lobbyWorld) = "j" ∧
  State (room res.1) = "voting" ∧ Timer (room res.1) = 90 ∧
  timerRunning (room res.1) = true ∧ goroutines res.1 = [(VoteTimer, 0%nat)] ∧
  res.2 = broadcastRoom (room (guessCorrectLocked lobbyWorld)).
Proof. vm_compute. auto 10. Qed.

(** ** Casting a vote *)

Lemma handleVoteInsider_valid c playerID msg w :
  validVote playerID msg (room w) →
  handleVoteInsider c playerID msg w
  = afterVote (with_room (recordVote playerID (ClientMessage.SuspectID msg) (room w)) w).
Proof.
  intros (Hs & Hstate & Hjudge & Hblocked & Hself & [p Hp]).
  unfold handleVoteInsider.
  rewrite decide_False by done. rewrite decide_False by (by intros []).
  rewrite decide_False by done. rewrite Hblocked.
  rewrite decide_False by done. by rewrite Hp.
Qed.

Lemma stopRunningTimer_room w :
  room (stopRunningTimer w)
  = if timerRunning (room w)
    then with_timerCancel None (with_timerRunning false (room w))
    else room w.
Proof. destruct w as [[] cl n g]. by destruct timerRunning0, timerCancel0. Qed.

Lemma stopRunningTimer_world w :
  closed (stopRunningTimer w)
  = (if timerRunning (room w)
     then match timerCancel (room w) with
          | Some c => {[c]} ∪ closed w
          | None => closed w
          end
     else closed w) ∧
  chans (stopRunningTimer w) = chans w ∧
  goroutines (stopRunningTimer w) = goroutines w.
Proof. destruct w as [[] cl n g]. by destruct timerRunning0, timerCancel0. Qed.

(** The tally does not touch the timer. *)
Lemma handleTallyVotes_timer r :
  timerRunning (handleTallyVotes r) = timerRunning r ∧
  timerCancel (handleTallyVotes r) = timerCancel r ∧
  Timer (handleTallyVotes r) = Timer r.
Proof.
  unfold handleTallyVotes. repeat case_decide; try done.
  destruct (topOf _); [done|]. by case_decide.
Qed.

(** Whenever the room has a member, the tally records the votes it saw and
    leaves the vote mapping and the voted markers empty. *)
Lemma handleTallyVotes_ran r :
  size (Players r) ≠ 0%nat →
  LastVotes (handleTallyVotes r)
    = (λ vt, mkVotePair vt.1 vt.2) <$> map_to_list (Votes r) ∧
  Votes (handleTallyVotes r) = ∅ ∧ Voted (handleTallyVotes r) = ∅.
Proof.
  intros Hplayers. unfold handleTallyVotes. rewrite decide_False by done.
  cbn [Votes with_LastVotes]. case_decide as Hcount; [done|].
  case_decide; [done|].
  destruct (topOf (countVotes (Votes r))) as [|votedID top] eqn:Htop.
  - exfalso. revert Htop. apply topOf_nonempty. by rewrite <- countVotes_empty_iff.
  - by case_decide.
Qed.

(** C6.  Once a valid vote is stored, the number of members who may vote
    is counted afresh (members that are neither the judge nor blocked).
    If the vote mapping has at least that many voters and the number is
    positive, the running timer is stopped (flag off, channel closed) and
    the tally runs on the spot: the votes it saw become the last votes and
    the vote mapping is empty again.  If the mapping has fewer voters, no
    tally runs: the vote stays in the mapping and nothing else changes. *)
Theorem vote_completion (c : nat) (playerID : string) (msg : ClientMessage.t)
    (w : World) :
  validVote playerID msg (room w) →
  let r1 := recordVote playerID (ClientMessage.SuspectID msg) (room w) in
  let res := handleVoteInsider c playerID msg w in
  eligibleCount r1
    = size (filter (λ kp : string * Player,
                      kp.1 ≠ JudgeID (room w) ∧
                      lookupBool (BlockedVoters (room w)) kp.1 = false)
                   (Players (room w))) ∧
  ((eligibleCount r1 ≤ size (Votes r1))%nat ∧ (0 < eligibleCount r1)%nat →
     room res.1 = handleTallyVotes (room (stopRunningTimer (with_room r1 w))) ∧
     LastVotes (room res.1) = (λ vt, mkVotePair vt.1 vt.2) <$> map_to_list (Votes r1) ∧
     Votes (room res.1) = ∅ ∧ Voted (room res.1) = ∅ ∧
     timerRunning (room res.1) = false ∧
     (timerRunning (room w) = true →
        timerCancel (room res.1) = None ∧
        ∀ c0, timerCancel (room w) = Some c0 → c0 ∈ closed res.1) ∧
     goroutines res.1 = goroutines w ∧ noError res.2) ∧
  ((size (Votes r1) < eligibleCount r1)%nat →
     res.1 = with_room r1 w ∧ noError res.2 ∧
     Votes (room res.1) = <[playerID := ClientMessage.SuspectID msg]> (Votes (room w)) ∧
     State (room res.1) = "voting" ∧ LastVotes (room res.1) = LastVotes (room w) ∧
     Players (room res.1) = Players (room w) ∧
     timerRunning (room res.1) = timerRunning (room w) ∧
     timerCancel (room res.1) = timerCancel (room w) ∧
     Timer (room res.1) = Timer (room w)).
Proof.
  intros Hvalid r1 res. subst res.
  rewrite (handleVoteInsider_valid _ _ _ _ Hvalid). fold r1.
  split; [done|]. unfold afterVote. cbn [room with_room]. split.
  - intros Hfull. rewrite decide_True by done. cbn [fst snd room with_room].
    set (ws := stopRunningTimer (with_room r1 w)).
    assert (size (Players (room ws)) ≠ 0%nat) as Hplayers.
    { unfold ws. rewrite stopRunningTimer_room. cbn [room with_room].
      destruct Hvalid as (_ & _ & _ & _ & _ & [p Hp]).
      assert (Players r1 ≠ ∅) as Hne by (intros He; cbn in He; by rewrite He in Hp).
      apply map_size_non_empty_iff in Hne. by destruct (timerRunning r1). }
    assert (Votes (room ws) = Votes r1) as Hvotes.
    { unfold ws. rewrite stopRunningTimer_room. cbn [room with_room].
      by destruct (timerRunning r1). }
    destruct (handleTallyVotes_ran _ Hplayers) as (Hlast & Hcleared & Hvoted).
    destruct (stopRunningTimer_world (with_room r1 w)) as (Hclosed & _ & Hgo).
    fold ws in Hclosed, Hgo. rewrite Hvotes in Hlast.
    destruct (handleTallyVotes_timer (room ws)) as (Hrun & Hcancel & _).
    split_and!; try done.
    + rewrite Hrun. unfold ws. rewrite stopRunningTimer_room. cbn [room with_room].
      by destruct (timerRunning r1) eqn:E.
    + intros Hrunning. split.
      * rewrite Hcancel. unfold ws. rewrite stopRunningTimer_room. cbn [room with_room].
        change (timerRunning r1) with (timerRunning (room w)). by rewrite Hrunning.
      * intros c0 Hc0. change (c0 ∈ closed ws).
        rewrite Hclosed. cbn [room with_room].
        change (timerRunning r1) with (timerRunning (room w)).
        change (timerCancel r1) with (timerCancel (room w)).
        rewrite Hrunning, Hc0. apply elem_of_union_l. by apply elem_of_singleton.
    + by repeat constructor.
  - intros Hfew. rewrite decide_False by lia. cbn [fst snd room with_room].
    split_and!; try done; [by repeat constructor|].
    by destruct Hvalid as (_ & Hstate & _).
Qed.

Lemma vote_completion_witness :
  let w := mkWorld (votingRoom [("a", "x"); ("b", "x"); ("c", "y"); ("y", "x")])
             ∅ 2 [(VoteTimer, 1%nat)] in
  let w' := mkWorld (votingRoom [("a", "x")]) ∅ 2 [(VoteTimer, 1%nat)] in
  (Votes (room (handleVoteInsider 0 "x" (voteMsg "y") w).1) = ∅ ∧
   1%nat ∈ closed (handleVoteInsider 0 "x" (voteMsg "y") w).1) ∧
  Votes (room (handleVoteInsider 0 "x" (voteMsg "y") w').1)
    = <["x" := "y"]> (Votes (room w')).
Proof.
  intros w w'.
  assert (validVote "x" (voteMsg "y") (room w)) as Hv.
  { unfold validVote. split_and!; try (vm_compute; done). by eexists. }
  assert (validVote "x" (voteMsg "y") (room w')) as Hv'.
  { unfold validVote. split_and!; try (vm_compute; done). by eexists. }
  destruct (vote_completion 0 "x" (voteMsg "y") w Hv) as (_ & Hfull & _).
  destruct (vote_completion 0 "x" (voteMsg "y") w' Hv') as (_ & _ & Hfew).
  split.
  - destruct Hfull as (_ & _ & Hvotes & _ & _ & Hstop & _); [vm_compute; lia|].
    split; [exact Hvotes|]. exact (proj2 (Hstop eq_refl) 1%nat eq_refl).
  - destruct Hfew as (_ & _ & Hvotes & _); [vm_compute; lia|]. exact Hvotes.
Defined.

(** ** Voting again *)

(** C10.  A valid [vote_insider] from a voter who already has an entry in
    the vote mapping replaces that entry: before the completion check the
    mapping holds the new target for the voter and what it held for every
    other voter, and it has as many voters as before. *)
Theorem revote_overwrites (c : nat) (playerID old : string) (msg : ClientMessage.t)
    (w : World) :
  validVote playerID msg (room w) →
  Votes (room w) !! playerID = Some old →
  let r1 := recordVote playerID (ClientMessage.SuspectID msg) (room w) in
  handleVoteInsider c playerID msg w = afterVote (with_room r1 w) ∧
  Votes r1 !! playerID = Some (ClientMessage.SuspectID msg) ∧
  (∀ voter, voter ≠ playerID → Votes r1 !! voter = Votes (room w) !! voter) ∧
  dom (Votes r1) = dom (Votes (room w)) ∧
  size (Votes r1) = size (Votes (room w)) ∧
  eligibleCount r1 = eligibleCount (room w).
Proof.
  intros Hvalid Hold r1. split; [by apply handleVoteInsider_valid|].
  unfold r1, recordVote. cbn [Votes with_Votes with_Voted].
  split_and!.
  - apply lookup_insert_eq.
  - intros voter Hne. by rewrite lookup_insert_ne.
  - rewrite dom_insert_L. apply elem_of_dom_2 in Hold.
    by apply subseteq_union_1_L, singleton_subseteq_l.
  - by rewrite map_size_insert_Some.
  - done.
Qed.

Lemma revote_overwrites_witness :
  let w := mkWorld (votingRoom [("a", "x")]) ∅ 2 [(VoteTimer, 1%nat)] in
  Votes (recordVote "a" "y" (room w)) !! "a" = Some "y" ∧
  size (Votes (recordVote "a" "y" (room w))) = size (Votes (room w)).
Proof.
  intros w.
  assert (validVote "a" (voteMsg "y") (room w)) as Hv.
  { unfold validVote. split_and!; try (vm_compute; done). by eexists. }
  destruct (revote_overwrites 0 "a" "x" (voteMsg "y") w Hv eq_refl)
    as (_ & Hnew & _ & _ & Hsize & _).
  split; [exact Hnew|exact Hsize].
Defined.

(** ** [start_round] *)

Lemma filter_other_keys (players : gmap string Player) (judge : string) :
  filter (λ kp : string * Player, kp.1 ≠ judge) players = delete judge players.
Proof.
  apply map_eq. intros k. apply option_eq. intros p.
  rewrite map_lookup_filter_Some, lookup_delete_Some. cbn.
  split; intros [? ?]; split; congruence.
Qed.

Lemma startCountdownTimer_state D w :
  State (room (startCountdownTimer D w)) = "countdown" ∧
  Timer (room (startCountdownTimer D w)) = D ∧
  SecretWord (room (startCountdownTimer D w)) = SecretWord (room w).
Proof. by rewrite startCountdownTimer_room. Qed.

(** [assignRoles] writes the insider id, the roles and the state, nothing
    else. *)
Lemma assignRoles_frame rnd r :
  Code (assignRoles rnd r) = Code r ∧ HostID (assignRoles rnd r) = HostID r ∧
  JudgeID (assignRoles rnd r) = JudgeID r ∧ Timer (assignRoles rnd r) = Timer r ∧
  SecretWord (assignRoles rnd r) = SecretWord r ∧
  Votes (assignRoles rnd r) = Votes r ∧
  timerRunning (assignRoles rnd r) = timerRunning r ∧
  timerCancel (assignRoles rnd r) = timerCancel r.
Proof. unfold assignRoles, resetRoles. cbv zeta. by repeat case_match. Qed.

(** The first half of C4: with a judge who is a member, at least three
    other members and a word, the round starts. *)
Lemma start_round_accepted c rnd msg w :
  JudgeID (room w) ≠ "" → is_Some (Players (room w) !! JudgeID (room w)) →
  (3 ≤ size (filter (λ kp : string * Player, kp.1 ≠ JudgeID (room w))
                    (Players (room w))))%nat →
  ClientMessage.SecretWord msg ≠ "" →
  let res := handleStartRound c rnd msg w in
  State (room res.1) = "countdown" ∧ noError res.2 ∧
  SecretWord (room res.1) = ClientMessage.SecretWord msg ∧
  Timer (room res.1)
    = (if decide (ClientMessage.Duration msg ≤ 0) then RoundDurationSeconds
       else ClientMessage.Duration msg) ∧
  timerRunning (room res.1) = true.
Proof.
  intros Hjudge [j Hj] Hcount Hword res.
  rewrite filter_other_keys, map_size_delete, Hj in Hcount.
  set (D := if decide (ClientMessage.Duration msg ≤ 0) then RoundDurationSeconds
            else ClientMessage.Duration msg).
  set (w2 := with_room (assignRoles rnd
               (with_SecretWord (ClientMessage.SecretWord msg) (room w))) w).
  assert (res = (startCountdownTimer D w2, broadcastRoom (room w2))) as ->.
  { unfold res, handleStartRound.
    rewrite decide_False by done. rewrite bool_decide_eq_true_2 by done.
    by rewrite decide_False by (intros [?|?]; [done|lia]). }
  cbn [fst snd].
  destruct (startCountdownTimer_state D w2) as (Hstate & Htimer & Hsecret).
  split_and!; try done.
  - by repeat constructor.
  - rewrite Hsecret. unfold w2. cbn [room with_room].
    by destruct (assignRoles_frame rnd
         (with_SecretWord (ClientMessage.SecretWord msg) (room w)))
      as (_ & _ & _ & _ & -> & _).
Qed.

(** The second half of C4 as the code has it: an empty word is refused,
    but only after it was stored. *)
Lemma start_round_empty_word c rnd msg w :
  ClientMessage.SecretWord msg = "" →
  handleStartRound c rnd msg w
  = (with_room (with_SecretWord "" (room w)) w,
     [EvError c "กรรมการต้องกำหนดคำปริศนาก่อนเริ่มเกม"]).
Proof. intros Hword. unfold handleStartRound. rewrite Hword. by rewrite decide_True. Qed.

(** C4.  The first half holds ([start_round_accepted]); the second does
    not.  In the middle of a round whose word is ["apple"], a
    [start_round] with an empty word is answered with an error, and the
    word of the room is empty afterwards: [room.SecretWord] is assigned
    before the word is checked. *)
Theorem start_round_empty_word_erases :
  let res := handleMessage 0 "a" 0 (startRoundMsg "" 0) countdownWorld in
  SecretWord (room countdownWorld) = "apple" ∧
  rejected 0 res.2 ∧
  SecretWord (room res.1) = "" ∧
  res.1 = with_room (with_SecretWord "" (room countdownWorld)) countdownWorld.
Proof.
  split; [done|]. split; [by eexists|]. split; [done|].
  apply (f_equal fst (start_round_empty_word 0 0 (startRoundMsg "" 0) countdownWorld eq_refl)).
Qed.

(** ** Invariants of the reachable rooms *)

Lemma sameCast_lookup r r' k p' :
  sameCast r r' → Players r' !! k = Some p' →
  ∃ p, Players r !! k = Some p ∧ ID p' = ID p ∧ Role p' = Role p.
Proof.
  intros (_ & _ & Hcast) Hk. specialize (Hcast k). rewrite Hk in Hcast.
  destruct (Players r !! k) as [p|]; [|done]. exists p.
  cbn in Hcast. by injection Hcast as -> ->.
Qed.

Lemma roomInv_sameCast r r' : sameCast r r' → roomInv r → roomInv r'.
Proof.
  intros Hcast (Hkey & Hins & Hjudge).
  pose proof Hcast as (HI & HJ & Hp). split_and!.
  - intros k p' Hk. destruct (sameCast_lookup _ _ _ _ Hcast Hk) as (p & Hp0 & -> & _).
    by apply (Hkey k p).
  - intros k p' Hk Hrole.
    destruct (sameCast_lookup _ _ _ _ Hcast Hk) as (p & Hp0 & _ & Hr).
    rewrite HI. apply (Hins k p Hp0). congruence.
  - intros Hset. rewrite HJ in Hset |- *. destruct (Hjudge Hset) as [j Hj].
    specialize (Hp (JudgeID r)). rewrite Hj in Hp.
    destruct (Players r' !! JudgeID r); [by eexists|done].
Qed.

Lemma sameCast_players r r' :
  Players r' = Players r → InsiderID r' = InsiderID r → JudgeID r' = JudgeID r →
  sameCast r r'.
Proof. intros Hp HI HJ. split_and!; try done. intros k. by rewrite Hp. Qed.

Lemma roomInv_newRoom code : roomInv (newRoom code).
Proof.
  split_and!.
  - apply map_Forall_empty.
  - apply map_Forall_empty.
  - intros Hset. done.
Qed.

Lemma roomInv_join c playerID playerName r :
  roomInv r → roomInv (joinRoom c playerID playerName r).
Proof.
  intros (Hkey & Hins & Hjudge).
  assert (Players (joinRoom c playerID playerName r)
          = <[playerID := mkPlayer playerID playerName 0 "" (Some c)]> (Players r) ∧
          InsiderID (joinRoom c playerID playerName r) = InsiderID r ∧
          JudgeID (joinRoom c playerID playerName r) = JudgeID r) as (Hp & HI & HJ).
  { unfold joinRoom. cbv zeta. by case_decide. }
  split_and!.
  - intros k p. rewrite Hp, lookup_insert. case_decide; [by intros [= <-]|]. apply Hkey.
  - intros k p. rewrite Hp, HI, lookup_insert. case_decide; [by intros [= <-]|]. apply Hins.
  - intros Hset. rewrite HJ in Hset |- *. rewrite Hp, lookup_insert.
    case_decide; [by eexists|]. by apply Hjudge.
Qed.

(** Removing a member, the judge id being cleared when it was theirs. *)
Lemma roomInv_removed playerID r r' :
  Players r' = delete playerID (Players r) → InsiderID r' = InsiderID r →
  JudgeID r' = (if decide (JudgeID r = playerID) then "" else JudgeID r) →
  roomInv r → roomInv r'.
Proof.
  intros Hp HI HJ (Hkey & Hins & Hjudge). split_and!.
  - intros k p. rewrite Hp, lookup_delete_Some. intros [_ Hk]. by apply (Hkey k p).
  - intros k p. rewrite Hp, HI, lookup_delete_Some. intros [_ Hk]. by apply (Hins k p).
  - unfold judgePresent. rewrite HJ, Hp. case_decide as Hd; [done|]. intros Hset.
    rewrite lookup_delete_ne by done. by apply Hjudge.
Qed.

Lemma roomInv_leave rnd playerID r : roomInv r → roomInv (leaveRoom rnd playerID r).
Proof.
  apply (roomInv_removed playerID); unfold leaveRoom; cbv zeta;
    repeat (case_decide || case_match); done.
Qed.

Lemma roomInv_kick targetID r : roomInv r → roomInv (kickLocked targetID r).
Proof.
  apply (roomInv_removed targetID); unfold kickLocked; cbv zeta;
    repeat case_decide; done.
Qed.

Lemma roomInv_setJudge targetID r : roomInv r → roomInv (setJudge targetID r).
Proof.
  intros (Hkey & Hins & Hjudge). unfold setJudge.
  destruct (Players r !! targetID) as [p|] eqn:Ht; [|done].
  split_and!; [done|done|]. intros _. cbn. by eexists.
Qed.

Lemma roomInv_nextRound w : roomInv (room w) → roomInv (room (handleNextRound w)).
Proof.
  intros (Hkey & Hins & Hjudge). rewrite handleNextRound_room. split_and!.
  - intros k p'. cbn [Players]. rewrite lookup_fmap.
    destruct (Players (room w) !! k) as [p|] eqn:Hk; [|done].
    intros [= <-]. by apply (Hkey k p).
  - intros k p'. cbn [Players]. rewrite lookup_fmap.
    destruct (Players (room w) !! k) as [p|] eqn:Hk; [|done]. by intros [= <-].
  - unfold judgePresent. cbn [Players JudgeID]. intros Hset. rewrite lookup_fmap.
    destruct (Hjudge Hset) as [j ->]. by eexists.
Qed.

Lemma sameCast_tally r : sameCast r (handleTallyVotes r).
Proof.
  assert (∀ r0 : Room, sameCast r0 (with_Players (rewardOthers r0) r0)) as Hothers.
  { intros r0. split_and!; [done|done|]. intros k. cbn. unfold rewardOthers.
    rewrite lookup_fmap. destruct (Players r0 !! k); [|done]. cbn. by case_decide. }
  assert (∀ r0 : Room, sameCast r0 (with_Players (rewardInsider r0) r0)) as Hinsider.
  { intros r0. split_and!; [done|done|]. intros k. cbn. unfold rewardInsider.
    destruct (Players r0 !! InsiderID r0) as [ins|] eqn:Hi; [|done].
    rewrite lookup_insert. case_decide as Hk; [|done]. subst k. by rewrite Hi. }
  unfold handleTallyVotes. case_decide; [by apply sameCast_players|].
  cbv zeta. case_decide; [by apply sameCast_players|].
  case_decide; [by apply sameCast_players|].
  destruct (topOf _) as [|votedID top]; [by apply sameCast_players|].
  set (r0 := with_LastVotes _ r).
  case_decide.
  - destruct (Hothers r0) as (HI & HJ & Hp). by split_and!.
  - destruct (Hinsider r0) as (HI & HJ & Hp). by split_and!.
Qed.

Lemma resetRoles_ids r :
  InsiderID (resetRoles r) = "" ∧ JudgeID (resetRoles r) = JudgeID r.
Proof. unfold resetRoles. cbv zeta. by repeat (case_decide || case_match). Qed.

Lemma resetRoles_lookup r k :
  (λ p, ID p) <$> Players (resetRoles r) !! k = (λ p, ID p) <$> Players r !! k ∧
  ∀ p, Players (resetRoles r) !! k = Some p → Role p ≠ "insider".
Proof.
  unfold resetRoles. cbv zeta. cbn [JudgeID Players with_Players with_InsiderID].
  assert ((λ p, ID p) <$> (with_Role "normal" <$> Players r) !! k
          = (λ p, ID p) <$> Players r !! k) as Hid.
  { rewrite lookup_fmap. by destruct (Players r !! k). }
  assert (∀ p, (with_Role "normal" <$> Players r) !! k = Some p → Role p ≠ "insider")
    as Hrole.
  { intros p. rewrite lookup_fmap. destruct (Players r !! k); [|done]. by intros [= <-]. }
  case_decide; [|done].
  destruct ((with_Role "normal" <$> Players r) !! JudgeID r) as [j|] eqn:Hj; [|done].
  cbn [Players with_Players]. rewrite lookup_insert. case_decide as Hk; [|done].
  subst k. rewrite Hj in Hid. split; [by rewrite <- Hid|]. by intros p [= <-].
Qed.

(** What [assignRoles] leaves when it drew an insider. *)
Lemma assignRoles_cases rnd r :
  assignRoles rnd r = resetRoles r ∨
  ∃ k ins, Players (resetRoles r) !! k = Some ins ∧ ID ins ≠ JudgeID r ∧
    InsiderID (assignRoles rnd r) = ID ins ∧
    JudgeID (assignRoles rnd r) = JudgeID r ∧
    Players (assignRoles rnd r)
      = <[k := with_Role "insider" ins]> (Players (resetRoles r)).
Proof.
  unfold assignRoles. cbv zeta.
  destruct (candidatesOf (resetRoles r) !! _) as [[k ins]|] eqn:Hpick; [|by left].
  right. exists k, ins.
  apply list_elem_of_lookup_2 in Hpick. unfold candidatesOf in Hpick.
  apply list_elem_of_filter in Hpick as [Hne Hin]. apply elem_of_map_to_list in Hin.
  destruct (resetRoles_ids r) as [_ HJ]. cbn in Hne. rewrite HJ in Hne.
  by split_and!.
Qed.

Lemma roomInv_resetRoles r : roomInv r → roomInv (resetRoles r).
Proof.
  intros (Hkey & Hins & Hjudge). destruct (resetRoles_ids r) as [HI HJ]. split_and!.
  - intros k p' Hk. destruct (resetRoles_lookup r k) as [Hid _].
    rewrite Hk in Hid. destruct (Players r !! k) as [p|] eqn:Hp; [|done].
    injection Hid as ->. by apply (Hkey k p).
  - intros k p' Hk Hrole. destruct (resetRoles_lookup r k) as [_ Hno].
    by destruct (Hno p' Hk).
  - unfold judgePresent. rewrite HJ. intros Hset. destruct (Hjudge Hset) as [j Hj].
    destruct (resetRoles_lookup r (JudgeID r)) as [Hid _]. rewrite Hj in Hid.
    destruct (Players (resetRoles r) !! JudgeID r); [by eexists|done].
Qed.

Lemma roomInv_assignRoles rnd r : roomInv r → roomInv (assignRoles rnd r).
Proof.
  intros Hinv. pose proof (roomInv_resetRoles r Hinv) as (Hkey & Hins & Hjudge).
  destruct (assignRoles_cases rnd r) as [->|(k & ins & Hk & Hne & HI & HJ & Hp)];
    [done|].
  destruct (resetRoles_ids r) as [_ HJ0].
  pose proof (Hkey k ins Hk) as Hid. cbn in Hid. split_and!.
  - intros k' p'. rewrite Hp, lookup_insert. case_decide; [by intros [= <-]; subst|].
    apply Hkey.
  - intros k' p'. rewrite Hp, HI, lookup_insert. case_decide; [by intros [= <-]; subst|].
    intros Hk' Hrole. destruct (resetRoles_lookup r k') as [_ Hno]. by destruct (Hno p' Hk').
  - unfold judgePresent. rewrite HJ, Hp. intros Hset.
    rewrite lookup_insert_ne by congruence.
    rewrite <- HJ0. apply Hjudge. by rewrite HJ0.
Qed.

(** Right after [assignRoles], an insider id that is set names a member
    with the role [insider] who is not the judge. *)
Lemma assignRoles_insider rnd r :
  keyedById r → InsiderID (assignRoles rnd r) ≠ "" →
  InsiderID (assignRoles rnd r) ≠ JudgeID (assignRoles rnd r) ∧
  ∃ p, Players (assignRoles rnd r) !! InsiderID (assignRoles rnd r) = Some p ∧
       Role p = "insider".
Proof.
  intros Hkey Hset.
  destruct (assignRoles_cases rnd r) as [Heq|(k & ins & Hk & Hne & HI & HJ & Hp)].
  - destruct (resetRoles_ids r) as [HI0 _]. by rewrite Heq, HI0 in Hset.
  - rewrite HI, HJ, Hp. split; [done|].
    destruct (resetRoles_lookup r k) as [Hid _]. rewrite Hk in Hid.
    destruct (Players r !! k) as [p|] eqn:Hp0; [|done]. injection Hid as Hid.
    rewrite Hid, (Hkey k p Hp0). rewrite lookup_insert_eq. by eexists.
Qed.

Lemma sameCast_guessCorrectLocked w : sameCast (room w) (room (guessCorrectLocked w)).
Proof.
  apply sameCast_players; destruct w as [[] cl n g];
    by destruct timerRunning0, timerCancel0.
Qed.

Lemma sameCast_startVoteTimer D w : sameCast (room w) (room (startVoteTimer D w)).
Proof.
  apply sameCast_players; unfold startVoteTimer; cbn; by rewrite closeTimerCancel_room.
Qed.

Lemma sameCast_stopRunningTimer w : sameCast (room w) (room (stopRunningTimer w)).
Proof.
  apply sameCast_players; rewrite stopRunningTimer_room; by destruct (timerRunning (room w)).
Qed.

Lemma sameCast_countdownTick r : sameCast r (countdownTick r).1.
Proof.
  apply sameCast_players; unfold countdownTick, decTimer;
    destruct (timerRunning r); cbn; by repeat case_decide.
Qed.

Lemma sameCast_voteTickLocked r : sameCast r (voteTickLocked r).1.
Proof.
  apply sameCast_players; unfold voteTickLocked, decTimer;
    destruct (timerRunning r); cbn; by repeat case_decide.
Qed.

Lemma step_roomInv w w' : step w w' → roomInv (room w) → roomInv (room w').
Proof.
  intros Hstep Hinv. destruct Hstep; cbn [room with_room returns].
  - by apply roomInv_join.
  - by apply roomInv_leave.
  - by apply roomInv_setJudge.
  - by apply (roomInv_sameCast (room w)); [apply sameCast_players|].
  - by apply (roomInv_sameCast (room w)); [apply sameCast_players|].
  - by apply roomInv_assignRoles.
  - rewrite startCountdownTimer_room.
    by apply (roomInv_sameCast (room w)); [apply sameCast_players|].
  - by apply (roomInv_sameCast (room w)); [apply sameCast_guessCorrectLocked|].
  - by apply (roomInv_sameCast (room w)); [apply sameCast_startVoteTimer|].
  - by apply (roomInv_sameCast (room w)); [apply sameCast_players|].
  - by apply (roomInv_sameCast (room w)); [apply sameCast_stopRunningTimer|].
  - by apply (roomInv_sameCast (room w)); [apply sameCast_tally|].
  - by apply roomInv_nextRound.
  - by apply roomInv_kick.
  - apply (roomInv_sameCast (room w)); [|done].
    pose proof (sameCast_countdownTick (room w)) as Hc. unfold countdownTickWorld.
    by destruct (countdownTick (room w)) as [r []].
  - apply (roomInv_sameCast (room w)); [|done].
    pose proof (sameCast_voteTickLocked (room w)) as Hc. unfold voteTickWorld.
    by destruct (voteTickLocked (room w)) as [r [[]|]].
  - done.
Qed.

Lemma reachable_roomInv w : reachable w → roomInv (room w).
Proof.
  intros [code Hrtc]. revert w Hrtc.
  apply (rtc_ind_r (λ w, roomInv (room w))); [apply roomInv_newRoom|].
  intros w1 w2 _ Hstep IH. by eapply step_roomInv.
Qed.

Lemma handleVoteInsider_cases c playerID msg w :
  (∃ text, handleVoteInsider c playerID msg w = (w, [EvError c text])) ∨
  handleVoteInsider c playerID msg w
  = afterVote (with_room (recordVote playerID (ClientMessage.SuspectID msg) (room w)) w).
Proof. unfold handleVoteInsider. cbv zeta. repeat case_match; eauto. Qed.

Lemma handleKick_cases c playerID msg w :
  (∃ text, handleKick c playerID msg w = (w, [EvError c text])) ∨
  (handleKick c playerID msg w).1
  = with_room (kickLocked (ClientMessage.TargetID msg) (room w)) w.
Proof. unfold handleKick. cbv zeta. repeat case_match; eauto. Qed.

(** Every handler is a sequence of steps. *)
Lemma handleMessage_steps c playerID rnd msg w :
  rtc step w (handleMessage c playerID rnd msg w).1.
Proof.
  unfold handleMessage. cbv zeta. repeat case_decide; cbn [fst]; try done.
  - apply rtc_once, step_set_judge.
  - unfold handleSetChatEnabled. destruct (ClientMessage.ChatEnabled msg); [|done].
    case_decide; [done|]. apply rtc_once, step_set_chat.
  - unfold handleStartRound. cbv zeta.
    case_decide; [apply rtc_once, step_store_word|].
    case_decide; [apply rtc_once, step_store_word|]. cbn [fst].
    eapply rtc_l; [apply step_store_word|].
    eapply rtc_l; [apply step_assign_roles|]. apply rtc_once, step_start_countdown.
  - unfold handleGuessCorrectMsg. destruct (bool_decide _); cbn [negb fst]; [|done].
    eapply rtc_l; [apply step_guess_correct|]. apply rtc_once, step_start_vote.
  - destruct (handleVoteInsider_cases c playerID msg w) as [[text ->]| ->]; [done|].
    eapply rtc_l; [apply step_record_vote|]. unfold afterVote. cbv zeta.
    case_decide; cbn [fst]; [|done].
    eapply rtc_l; [apply step_stop_timer|]. apply rtc_once, step_tally.
  - apply rtc_once, step_next_round.
  - destruct (handleKick_cases c playerID msg w) as [[text ->]| ->]; [done|].
    apply rtc_once, step_kick.
Qed.

Lemma act_steps w a : rtc step w (act w a).
Proof.
  destruct a; cbn [act].
  - apply rtc_once, step_join.
  - apply rtc_once, step_leave.
  - apply handleMessage_steps.
Qed.

Lemma run_steps actions w : rtc step w (run actions w).
Proof.
  revert w. induction actions as [|a actions IH]; intros w; [done|].
  cbn. etrans; [apply act_steps|apply IH].
Qed.

Lemma run_reachable actions code : reachable (run actions (initWorld code)).
Proof. exists code. apply run_steps. Qed.

(** ** The insider *)

(** C3 (amended).  In every reachable room at most one player has the role
    [insider], and that player is stored under the insider id; and a role
    assignment made in a reachable room leaves an insider id that, when it
    is not empty, names a member with the role [insider] who is not the
    judge.  Nothing keeps the insider id apart from the judge id, or among
    the members, after that. *)
Theorem insider_invariant (w : World) :
  reachable w →
  oneInsiderRole (room w) ∧
  (∀ k p, Players (room w) !! k = Some p → Role p = "insider" →
     k = InsiderID (room w) ∧ ID p = InsiderID (room w)) ∧
  (∀ rnd, let r' := assignRoles rnd (room w) in
     InsiderID r' ≠ "" →
     InsiderID r' ≠ JudgeID r' ∧
     ∃ p, Players r' !! InsiderID r' = Some p ∧ Role p = "insider").
Proof.
  intros Hreach. destruct (reachable_roomInv w Hreach) as (Hkey & Hins & _).
  split_and!.
  - intros k1 k2 p1 p2 H1 H2 Hr1 Hr2.
    by rewrite (Hins k1 p1 H1 Hr1), (Hins k2 p2 H2 Hr2).
  - intros k p Hk Hrole. pose proof (Hins k p Hk Hrole) as <-.
    split; [done|]. by apply (Hkey k p).
  - intros rnd r'. by apply assignRoles_insider.
Qed.

Lemma insider_invariant_witness :
  let w := run insiderMadeJudge (initWorld "R") in
  oneInsiderRole (room w) ∧
  ("p3" = InsiderID (room w) ∧ "p3" = InsiderID (room w)).
Proof.
  intros w.
  destruct (insider_invariant w (run_reachable insiderMadeJudge "R")) as (Hone & Hnamed & _).
  split; [exact Hone|].
  exact (Hnamed "p3" (mkPlayer "p3" "Cid" 0 "insider" (Some 3%nat)) eq_refl eq_refl).
Defined.

Lemma insider_invariant_counterexample :
  (let w := run insiderMadeJudge (initWorld "R") in
   reachable w ∧ InsiderID (room w) = "p3" ∧ JudgeID (room w) = "p3" ∧
   Role <$> Players (room w) !! "p3" = Some "insider") ∧
  (let w := run insiderGone (initWorld "R") in
   reachable w ∧ InsiderID (room w) = "p3" ∧ Players (room w) !! "p3" = None).
Proof.
  split; intros w; (split; [apply run_reachable|]); vm_compute; auto.
Qed.

(** The first half of C4 in a reachable room: a judge id that is set names
    a member there, so a judge, three other members and a word are enough
    for the round to start. *)
Lemma start_round_accepted_reachable c playerID rnd msg w :
  reachable w → JudgeID (room w) ≠ "" →
  (3 ≤ size (filter (λ kp : string * Player, kp.1 ≠ JudgeID (room w))
                    (Players (room w))))%nat →
  ClientMessage.SecretWord msg ≠ "" →
  State (room (handleMessage c playerID rnd
                 (ClientMessage.mk "start_round" (ClientMessage.TargetID msg)
                    (ClientMessage.Duration msg) (ClientMessage.SuspectID msg)
                    (ClientMessage.SecretWord msg) (ClientMessage.Text msg)
                    (ClientMessage.ChatEnabled msg)) w).1) = "countdown".
Proof.
  intros Hreach Hjudge Hcount Hword.
  destruct (reachable_roomInv w Hreach) as (_ & _ & Hpresent).
  unfold handleMessage. cbv zeta. cbn [ClientMessage.Type'].
  repeat (rewrite decide_False by done). rewrite decide_True by done.
  by apply start_round_accepted; [|apply Hpresent| |].
Qed.

(** ** Channels are closed once *)

Lemma chanInv_with_room r w :
  timerCancel r = timerCancel (room w) → chanInv w → chanInv (with_room r w).
Proof. intros Hc [Hclosed Hopen]. split; [done|]. cbn. by rewrite Hc. Qed.

(** Closing the stored channel and storing [stored] instead, which is a
    fresh channel or none. *)
Lemma chanInv_replace w w' :
  chanInv w →
  closed w' = match timerCancel (room w) with
              | Some c => {[c]} ∪ closed w
              | None => closed w
              end →
  (chans w' = chans w ∧ timerCancel (room w') = None) ∨
  (chans w' = S (chans w) ∧ timerCancel (room w') = Some (chans w)) →
  chanInv w'.
Proof.
  intros [Hclosed Hopen] Hcl Hnew.
  assert (∀ c, c ∈ closed w' → (c < chans w)%nat) as Hbound.
  { intros c. rewrite Hcl. destruct (timerCancel (room w)) as [c0|] eqn:Hc0; [|apply Hclosed].
    intros [->%elem_of_singleton|?]%elem_of_union; [by apply Hopen|by apply Hclosed]. }
  destruct Hnew as [[Hn Hc]|[Hn Hc]]; split.
  - intros c Hin. rewrite Hn. by apply Hbound.
  - intros c. by rewrite Hc.
  - intros c Hin. rewrite Hn. apply Hbound in Hin. lia.
  - intros c. rewrite Hc, Hn. intros [= <-]. split; [lia|].
    intros Hin. apply Hbound in Hin. lia.
Qed.

Lemma step_chanInv w w' : step w w' → chanInv w → chanInv w'.
Proof.
  intros Hstep Hinv. destruct Hstep.
  - apply chanInv_with_room; [|done]. unfold joinRoom. cbv zeta. by case_decide.
  - apply chanInv_with_room; [|done]. unfold leaveRoom. cbv zeta.
    by repeat (case_decide || case_match).
  - apply chanInv_with_room; [|done]. unfold setJudge. by case_match.
  - by apply chanInv_with_room.
  - by apply chanInv_with_room.
  - apply chanInv_with_room; [|done]. by destruct (assignRoles_frame rnd (room w)) as (_&_&_&_&_&_&_&->).
  - apply (chanInv_replace w); [done| |right].
    + unfold startCountdownTimer, closeTimerCancel. by destruct (timerCancel (room w)).
    + split; [|by rewrite startCountdownTimer_room].
      unfold startCountdownTimer. cbn. by rewrite closeTimerCancel_chans.
  - destruct (timerRunning (room w)) eqn:Hrun.
    + apply (chanInv_replace w); [done| |left];
        destruct w as [[] cl n g]; cbn in Hrun; subst; by destruct timerCancel0.
    + replace (guessCorrectLocked w) with (with_room (room (guessCorrectLocked w)) w)
        by (destruct w as [[] cl n g]; cbn in Hrun; by subst).
      apply chanInv_with_room; [|done].
      destruct w as [[] cl n g]; cbn in Hrun; by subst.
  - apply (chanInv_replace w); [done| |right].
    + unfold startVoteTimer, closeTimerCancel. by destruct (timerCancel (room w)).
    + unfold startVoteTimer. cbn.
      by rewrite ?closeTimerCancel_chans, ?closeTimerCancel_room.
  - by apply chanInv_with_room.
  - destruct (timerRunning (room w)) eqn:Hrun.
    + apply (chanInv_replace w); [done| |left];
        destruct w as [[] cl n g]; cbn in Hrun; subst; by destruct timerCancel0.
    + replace (stopRunningTimer w) with w; [done|].
      unfold stopRunningTimer. by rewrite Hrun.
  - apply chanInv_with_room; [|done]. by destruct (handleTallyVotes_timer (room w)) as (_&->&_).
  - destruct (handleNextRound_world w) as (Hcl & Hn & _).
    apply (chanInv_replace w); [done|done|left]. split; [done|].
    by rewrite handleNextRound_room.
  - apply chanInv_with_room; [|done]. unfold kickLocked. cbv zeta. by case_decide.
  - unfold countdownTickWorld.
    assert (timerCancel (countdownTick (room w)).1 = timerCancel (room w)) as Hc.
    { unfold countdownTick, decTimer. destruct (timerRunning (room w)); cbn;
        by repeat case_decide. }
    destruct (countdownTick (room w)) as [r []]; by apply (chanInv_with_room r w).
  - unfold voteTickWorld.
    assert (timerCancel (voteTickLocked (room w)).1 = timerCancel (room w)) as Hc.
    { unfold voteTickLocked, decTimer. destruct (timerRunning (room w)); cbn;
        by repeat case_decide. }
    destruct (voteTickLocked (room w)) as [r [[]|]]; by apply (chanInv_with_room r w).
  - done.
Qed.

(** In a reachable world the stored channel has not been closed, so no
    [close] of the source is applied to a closed channel. *)
Lemma reachable_chanInv w : reachable w → chanInv w.
Proof.
  intros [code Hrtc]. revert w Hrtc.
  apply (rtc_ind_r (λ w, chanInv w)).
  - split; [intros c Hc; by apply not_elem_of_empty in Hc|done].
  - intros w1 w2 _ Hstep IH. by eapply step_chanInv.
Qed.
